(** * Call Graph Explorer front end: api.js and App.jsx

  A shallow embedding of the client of the call-graph explorer:
  - [Api]: the request helper of api.js and its request builders;
  - [SourceView]: the source panel component of App.jsx;
  - [App]: the React state of the [App] component, the search effect
    (debounce timer and [active] flag), [loadGraph] and [nodePaint],
    as an event-driven machine over the browser's event queue.

  Strings are Rocq strings, numbers that the code treats as integers are
  [Z] or [N], [null]/[undefined] is [None], a promise that has settled is
  an [Outcome]. *)

From Stdlib Require Import ZArith String Ascii.
From stdpp Require Import base tactics option list strings pretty.

Local Open Scope string_scope.
Local Open Scope list_scope.

(** ** JavaScript values *)

Module Js.

(** A settled promise: [Resolved v], or [Rejected m] with [m] the
    [message] of the error it was rejected with. *)
Inductive Outcome (A : Type) : Type :=
| Resolved (v : A)
| Rejected (message : string).
Arguments Resolved {A} v.
Arguments Rejected {A} message.

(** Truthiness of a string: only the empty string is falsy. *)
Definition truthy (s : string) : bool :=
  match s with
  | EmptyString => false
  | String _ _ => true
  end.

(** [a || b] on strings. *)
Definition or_else (a b : string) : string :=
  if truthy a then a else b.

(** [o || d] where [o] may be [undefined]. *)
Definition or_default {A} (o : option A) (d : A) : A :=
  match o with
  | Some v => v
  | None => d
  end.

(** [a === b] on strings. *)
Definition strict_eq (a b : string) : bool := String.eqb a b.

(** [o?.id === x]-style comparison: [undefined] equals no string. *)
Definition opt_strict_eq (o : option string) (x : string) : bool :=
  match o with
  | Some a => strict_eq a x
  | None => false
  end.

End Js.

Import Js.

(** ** JSON shapes exchanged with the backend *)

Module Wire.

Record Node := {
  id : string;
  name : string;
  package : option string;
  file : option string;
  line : option Z
}.

Record Edge := { source : string; target : string }.

(** Body of [/api/function/<id>/subgraph]. *)
Record Subgraph := {
  root : option Node;
  nodes : list Node;
  edges : list Edge
}.

(** Body of [/api/functions]. *)
Record SearchData := { results : option (list Node) }.

(** Body of [/api/source]. *)
Record SourceData := { content : option string }.

End Wire.

(** ** api.js *)

Module Api.

(** What [fetch] resolves with: the status line, the body as [text()]
    gives it and the body as [json()] gives it. *)
Record Response (J : Type) := {
  status : N;
  text : string;
  json : Outcome J
}.
Arguments status {J} _.
Arguments text {J} _.
Arguments json {J} _.

(** [res.ok]: the status is in the range 200-299. *)
Definition ok {J} (res : Response J) : bool :=
  (200 <=? status res)%N && (status res <=? 299)%N.

(** [request(path)], from the point where [fetch] has settled. *)
Definition request {J} (fetched : Outcome (Response J)) : Outcome J :=
  match fetched with
  | Rejected m => Rejected m
  | Resolved res =>
      if negb (ok res)
      then Rejected (or_else (text res) ("Request failed: " +:+ pretty (status res)))
      else json res
  end.

(** The paths the builders hand to [request], before URL encoding. *)
Inductive Path :=
| functions (q : option string) (limit : Z)
| function_subgraph (functionId : string) (depth limit : Z)
| source_of (file : string)
| function_ (functionId : string).

Definition searchFunctions (query : string) : Path :=
  functions (if truthy query then Some query else None) 40.

Definition fetchSubgraph (functionId : string) (depth limit : Z) : Path :=
  function_subgraph functionId depth limit.

Definition fetchSource (file : string) : Path := source_of file.

Definition fetchFunction (functionId : string) : Path := function_ functionId.

End Api.

(** ** App.jsx: SourceView *)

Module SourceView.

Definition newline : ascii := ascii_of_nat 10.

(** [content.split('\n')]. *)
Fixpoint split (content : string) : list string :=
  match content with
  | EmptyString => [EmptyString]
  | String c rest =>
      if Ascii.eqb c newline then EmptyString :: split rest
      else match split rest with
           | l :: ls => String c l :: ls
           | [] => [String c EmptyString]
           end
  end.

(** One rendered [div.code-line]. *)
Record Row := {
  lineNumber : Z;
  isHighlight : bool;
  code_text : string
}.

Inductive Rendered :=
| Empty                      (* div.empty: Select a function to view source. *)
| Code (rows : list Row).    (* pre.code *)

Definition render_line (highlightLine : option Z) (idx : nat) (line : string) : Row :=
  let lineNumber := (Z.of_nat idx + 1)%Z in
  {| lineNumber := lineNumber;
     isHighlight := bool_decide (highlightLine = Some lineNumber);
     code_text := or_else line " " |}.

Definition SourceView (content : option string) (highlightLine : option Z) : Rendered :=
  match content with
  | None => Empty
  | Some c =>
      if negb (truthy c) then Empty
      else Code (imap (render_line highlightLine) (split c))
  end.

(** [lines.join('\n')], the inverse of [split]. *)
Fixpoint join (lines : list string) : string :=
  match lines with
  | [] => ""
  | [l] => l
  | l :: ls => l +:+ String newline (join ls)
  end.

Fixpoint has_newline (s : string) : bool :=
  match s with
  | EmptyString => false
  | String c rest => Ascii.eqb c newline || has_newline rest
  end.

End SourceView.

(** ** App.jsx: the App component *)

Module App.

(** [graph]: what [setGraph] stores and [ForceGraph2D] is handed. *)
Record Graph := { nodes : list Wire.Node; links : list Wire.Edge }.

(** The nine [useState] cells that carry the exploration state. *)
Record View := {
  query : string;
  results : list Wire.Node;
  selected : option Wire.Node;
  graph : Graph;
  source : option Wire.SourceData;
  loading : bool;
  depth : Z;
  limit : Z;
  error : string
}.

(** One run of the search effect: the [query] its closure captured, its
    [active] flag, and how far its timer and request have got. *)
Inductive Phase := Scheduled | InFlight | Settled.

Record Effect := {
  effect_query : string;
  active : bool;
  phase : Phase
}.

(** A pending [setTimeout]; its handle is the effect run that owns it. *)
Record Timer := { owner : nat; due : Z }.

(** One call of [loadGraph]: the [await] it is suspended at. *)
Inductive Stage := AwaitSubgraph | AwaitSource | Finished.

(** The component together with what the event loop holds for it. Effect
    runs and [loadGraph] calls are numbered in the order they start;
    [requests] logs each request with the time it was issued. *)
Record State := {
  view : View;
  now : Z;
  effects : list Effect;
  timers : list Timer;
  calls : list Stage;
  requests : list (Z * Api.Path)
}.

Definition with_view (f : View -> View) (s : State) : State :=
  {| view := f (view s); now := now s; effects := effects s;
     timers := timers s; calls := calls s; requests := requests s |}.

Definition setQuery (x : string) : State -> State :=
  with_view (fun v =>
    {| query := x; results := results v; selected := selected v;
       graph := graph v; source := source v; loading := loading v;
       depth := depth v; limit := limit v; error := error v |}).

Definition setResults (x : list Wire.Node) : State -> State :=
  with_view (fun v =>
    {| query := query v; results := x; selected := selected v;
       graph := graph v; source := source v; loading := loading v;
       depth := depth v; limit := limit v; error := error v |}).

Definition setSelected (x : option Wire.Node) : State -> State :=
  with_view (fun v =>
    {| query := query v; results := results v; selected := x;
       graph := graph v; source := source v; loading := loading v;
       depth := depth v; limit := limit v; error := error v |}).

Definition setGraph (x : Graph) : State -> State :=
  with_view (fun v =>
    {| query := query v; results := results v; selected := selected v;
       graph := x; source := source v; loading := loading v;
       depth := depth v; limit := limit v; error := error v |}).

Definition setSource (x : option Wire.SourceData) : State -> State :=
  with_view (fun v =>
    {| query := query v; results := results v; selected := selected v;
       graph := graph v; source := x; loading := loading v;
       depth := depth v; limit := limit v; error := error v |}).

Definition setLoading (x : bool) : State -> State :=
  with_view (fun v =>
    {| query := query v; results := results v; selected := selected v;
       graph := graph v; source := source v; loading := x;
       depth := depth v; limit := limit v; error := error v |}).

Definition setDepth (x : Z) : State -> State :=
  with_view (fun v =>
    {| query := query v; results := results v; selected := selected v;
       graph := graph v; source := source v; loading := loading v;
       depth := x; limit := limit v; error := error v |}).

Definition setLimit (x : Z) : State -> State :=
  with_view (fun v =>
    {| query := query v; results := results v; selected := selected v;
       graph := graph v; source := source v; loading := loading v;
       depth := depth v; limit := x; error := error v |}).

Definition setError (x : string) : State -> State :=
  with_view (fun v =>
    {| query := query v; results := results v; selected := selected v;
       graph := graph v; source := source v; loading := loading v;
       depth := depth v; limit := limit v; error := x |}).

Definition set_effects (x : list Effect) (s : State) : State :=
  {| view := view s; now := now s; effects := x;
     timers := timers s; calls := calls s; requests := requests s |}.

Definition set_timers (x : list Timer) (s : State) : State :=
  {| view := view s; now := now s; effects := effects s;
     timers := x; calls := calls s; requests := requests s |}.

Definition set_calls (x : list Stage) (s : State) : State :=
  {| view := view s; now := now s; effects := effects s;
     timers := timers s; calls := x; requests := requests s |}.

Definition set_now (x : Z) (s : State) : State :=
  {| view := view s; now := x; effects := effects s;
     timers := timers s; calls := calls s; requests := requests s |}.

(** Issue a request: it is logged with the current time. *)
Definition issue_at (t : Z) (p : Api.Path) (s : State) : State :=
  {| view := view s; now := now s; effects := effects s;
     timers := timers s; calls := calls s;
     requests := requests s ++ [(t, p)] |}.

(** *** The search effect, [useEffect(..., [query])] *)

Definition debounce : Z := 250.

Definition deactivate (eff : Effect) : Effect :=
  {| effect_query := effect_query eff; active := false; phase := phase eff |}.

Definition at_phase (p : Phase) (eff : Effect) : Effect :=
  {| effect_query := effect_query eff; active := active eff; phase := p |}.

(** The function the effect returns: [active = false; clearTimeout(handle)]. *)
Definition cleanup (e : nat) (s : State) : State :=
  set_timers (filter (fun t => owner t <> e) (timers s))
    (set_effects (alter deactivate e (effects s)) s).

(** The effect body: [let active = true; const handle = setTimeout(..., 250)]. *)
Definition run_effect (s : State) : State :=
  let e := length (effects s) in
  set_timers (timers s ++ [{| owner := e; due := (now s + debounce)%Z |}])
    (set_effects
       (effects s ++ [{| effect_query := query (view s); active := true;
                         phase := Scheduled |}]) s).

(** [onChange={(e) => setQuery(e.target.value)}]: when the value differs from
    [query] the component renders again, the previous run of the effect is
    cleaned up and the effect runs for the new [query]; an equal value
    leaves the dependency [[query]] unchanged and nothing runs. *)
Definition onQueryChange (value : string) (s : State) : State :=
  if bool_decide (value = query (view s)) then s
  else
    let s1 := setQuery value s in
    let s2 := match length (effects s1) with
              | O => s1
              | S e => cleanup e s1
              end in
    run_effect s2.

(** The timer callback: [searchFunctions(query)] with the captured [query]. *)
Definition fire (t : Timer) (s : State) : State :=
  match effects s !! owner t with
  | Some eff =>
      issue_at (due t) (Api.searchFunctions (effect_query eff))
        (set_effects (<[owner t := at_phase InFlight eff]> (effects s)) s)
  | None => s
  end.

(** Time passes to [t]: every pending timer that is due by then fires. *)
Definition tick (t : Z) (s : State) : State :=
  if bool_decide (t < now s)%Z then s
  else
    foldl (fun acc x => fire x acc)
      (set_now t (set_timers (filter (fun x => (t < due x)%Z) (timers s)) s))
      (filter (fun x => (due x <= t)%Z) (timers s)).

(** The [.then] and [.catch] callbacks of effect run [e]. *)
Definition searchSettled (e : nat)
    (fetched : Outcome (Api.Response Wire.SearchData)) (s : State) : State :=
  match effects s !! e with
  | Some eff =>
      match phase eff with
      | InFlight =>
          let s1 := set_effects (<[e := at_phase Settled eff]> (effects s)) s in
          match Api.request fetched with
          | Resolved data =>
              if negb (active eff) then s1
              else setResults (or_default (Wire.results data) []) s1
          | Rejected m =>
              if negb (active eff) then s1
              else setError m s1
          end
      | _ => s
      end
  | None => s
  end.

(** *** [loadGraph] *)

Definition set_stage (k : nat) (st : Stage) (s : State) : State :=
  set_calls (<[k := st]> (calls s)) s.

(** [loadGraph(functionId)] up to its first [await]. *)
Definition loadGraph (functionId : string) (s : State) : State :=
  let s1 := setError "" (setLoading true s) in
  issue_at (now s1)
    (Api.fetchSubgraph functionId (depth (view s)) (limit (view s)))
    (set_calls (calls s1 ++ [AwaitSubgraph]) s1).

(** [data.edges.map((edge) => ({ source: edge.source, target: edge.target }))]. *)
Definition to_links (edges : list Wire.Edge) : list Wire.Edge :=
  map (fun edge => {| Wire.source := Wire.source edge;
                      Wire.target := Wire.target edge |}) edges.

(** [data.root?.file], when it is truthy. *)
Definition root_file (data : Wire.Subgraph) : option string :=
  match Wire.root data with
  | Some r =>
      match Wire.file r with
      | Some f => if truthy f then Some f else None
      | None => None
      end
  | None => None
  end.

(** Call [k] resumes from [await fetchSubgraph(...)]. *)
Definition subgraphSettled (k : nat)
    (fetched : Outcome (Api.Response Wire.Subgraph)) (s : State) : State :=
  match calls s !! k with
  | Some AwaitSubgraph =>
      match Api.request fetched with
      | Resolved data =>
          let links := to_links (Wire.edges data) in
          let s1 := setGraph {| nodes := Wire.nodes data; links := links |} s in
          let s2 := setSelected (Wire.root data) s1 in
          match root_file data with
          | Some f =>
              issue_at (now s2) (Api.fetchSource f) (set_stage k AwaitSource s2)
          | None =>
              setLoading false (setSource None (set_stage k Finished s2))
          end
      | Rejected m =>
          setLoading false (setError m (set_stage k Finished s))
      end
  | _ => s
  end.

(** Call [k] resumes from [await fetchSource(...)]. *)
Definition sourceSettled (k : nat)
    (fetched : Outcome (Api.Response Wire.SourceData)) (s : State) : State :=
  match calls s !! k with
  | Some AwaitSource =>
      match Api.request fetched with
      | Resolved sourceData =>
          setLoading false (setSource (Some sourceData) (set_stage k Finished s))
      | Rejected m =>
          setLoading false (setError m (set_stage k Finished s))
      end
  | _ => s
  end.

Definition onSelectResult (item : Wire.Node) (s : State) : State :=
  loadGraph (Wire.id item) s.

(** [if (!node?.id) return; loadGraph(node.id);] *)
Definition onNodeClick (node : option Wire.Node) (s : State) : State :=
  match node with
  | Some n => if negb (truthy (Wire.id n)) then s else loadGraph (Wire.id n) s
  | None => s
  end.

(** *** The event queue *)

Inductive Event :=
| Input (value : string)
| DepthInput (d : Z)
| LimitInput (l : Z)
| SelectResult (item : Wire.Node)
| NodeClick (node : option Wire.Node)
| Tick (t : Z)
| SearchSettled (e : nat) (fetched : Outcome (Api.Response Wire.SearchData))
| SubgraphSettled (k : nat) (fetched : Outcome (Api.Response Wire.Subgraph))
| SourceSettled (k : nat) (fetched : Outcome (Api.Response Wire.SourceData)).

Definition step (s : State) (ev : Event) : State :=
  match ev with
  | Input value => onQueryChange value s
  | DepthInput d => setDepth d s
  | LimitInput l => setLimit l s
  | SelectResult item => onSelectResult item s
  | NodeClick node => onNodeClick node s
  | Tick t => tick t s
  | SearchSettled e fetched => searchSettled e fetched s
  | SubgraphSettled k fetched => subgraphSettled k fetched s
  | SourceSettled k fetched => sourceSettled k fetched s
  end.

Definition run (s : State) (evs : list Event) : State := foldl step s evs.

(** The [useState] defaults. *)
Definition initial_view : View :=
  {| query := ""; results := []; selected := None;
     graph := {| nodes := []; links := [] |}; source := None;
     loading := false; depth := 2; limit := 60; error := "" |}.

(** The component after mounting at time 0: the effect has run once. *)
Definition init : State :=
  run_effect {| view := initial_view; now := 0; effects := [];
                timers := []; calls := []; requests := [] |}.

Inductive reachable : State -> Prop :=
| reachable_init : reachable init
| reachable_step s ev : reachable s -> reachable (step s ev).

(** Typing into the search box at given times: before each input the clock
    moves to its time. *)
Definition type_at (s : State) (ev : Z * string) : State :=
  step (step s (Tick ev.1)) (Input ev.2).

Definition type_burst (s : State) (burst : list (Z * string)) : State :=
  foldl type_at s burst.

(** A burst whose inputs are less than the debounce window apart, starting
    no earlier than [t0]. *)
Fixpoint closely_spaced (t0 : Z) (burst : list (Z * string)) : Prop :=
  match burst with
  | [] => True
  | (t, _) :: rest => (t0 <= t < t0 + debounce)%Z /\ closely_spaced t rest
  end.

(** Every input changes the text of the box. *)
Fixpoint each_changes (q0 : string) (burst : list (Z * string)) : Prop :=
  match burst with
  | [] => True
  | (_, q) :: rest => q <> q0 /\ each_changes q rest
  end.

(** The last input of a burst that starts with [ev]. *)
Fixpoint last_input (ev : Z * string) (rest : list (Z * string)) : Z * string :=
  match rest with
  | [] => ev
  | ev' :: rest' => last_input ev' rest'
  end.

(** *** Invariants of the search effect *)

(** Only the latest run of the effect can be active, and a pending timer
    belongs to the latest run. *)
Definition search_inv (s : State) : Prop :=
  (forall e eff, effects s !! e = Some eff -> active eff = true ->
                 S e = length (effects s))
  /\ (forall t, t ∈ timers s -> S (owner t) = length (effects s)).

(** The state right after an input [q] at time [t] (and until the next input
    or the timer): the latest run holds [q] and waits for its timer, which is
    the only one pending and is due at [t + 250]. *)
Definition armed_at (t : Z) (q : string) (s : State) : Prop :=
  exists effs,
    effects s = effs ++ [{| effect_query := q; active := true; phase := Scheduled |}]
    /\ Forall (fun eff => active eff = false) effs
    /\ timers s = [{| owner := length effs; due := (t + debounce)%Z |}]
    /\ query (view s) = q
    /\ now s = t.

(** *** Graph rendering *)

(** An element of [graphNodes]: [{ ...node, isSelected }]. *)
Record GraphNode := { node_of : Wire.Node; isSelected : bool }.

(** [selected?.id]. *)
Definition selected_id (v : View) : option string :=
  Wire.id <$> selected v.

Definition graphNodes (v : View) : list GraphNode :=
  map (fun node =>
         {| node_of := node;
            isSelected := opt_strict_eq (selected_id v) (Wire.id node) |})
      (nodes (graph v)).

Definition isCaller (v : View) (node : GraphNode) : bool :=
  existsb (fun link =>
             strict_eq (Wire.target link) (Wire.id (node_of node))
             && opt_strict_eq (selected_id v) (Wire.source link))
          (links (graph v)).

Definition isCallee (v : View) (node : GraphNode) : bool :=
  existsb (fun link =>
             opt_strict_eq (selected_id v) (Wire.source link)
             && strict_eq (Wire.target link) (Wire.id (node_of node)))
          (links (graph v)).

(** What [nodePaint] draws for the disc of a node. *)
Record Paint := { color : string; radius : Z }.

Definition nodePaint (v : View) (node : GraphNode) : Paint :=
  let radius := if isSelected node then 10%Z else 6%Z in
  let color :=
    if isSelected node then "#ffd66b"
    else if isCaller v node then "#ff8f6b"
    else if isCallee v node then "#6bf7b0"
    else "#6cc2ff" in
  {| color := color; radius := radius |}.

(** The source panel as [App] renders it:
    [<SourceView content={source?.content} highlightLine={selected?.line} />]. *)
Definition source_panel (v : View) : SourceView.Rendered :=
  SourceView.SourceView (source v ≫= Wire.content) (selected v ≫= Wire.line).

(** *** The roles as the specification words them *)

Inductive Role := RoleSelected | RoleCaller | RoleCallee | RoleDefault.

(** The colour [nodePaint] gives each role. *)
Definition role_color (r : Role) : string :=
  match r with
  | RoleSelected => "#ffd66b"
  | RoleCaller => "#ff8f6b"
  | RoleCallee => "#6bf7b0"
  | RoleDefault => "#6cc2ff"
  end.

(** There is an edge [x -> y] among the links. *)
Definition has_edge (ls : list Wire.Edge) (x y : string) : bool :=
  existsb (fun link => strict_eq (Wire.source link) x
                       && strict_eq (Wire.target link) y) ls.

(** Selected, else caller (an edge from the node to the selected node),
    else callee (an edge from the selected node to the node), else default. *)
Definition spec_role (v : View) (node : Wire.Node) : Role :=
  match selected v with
  | None => RoleDefault
  | Some sel =>
      if strict_eq (Wire.id sel) (Wire.id node) then RoleSelected
      else if has_edge (links (graph v)) (Wire.id node) (Wire.id sel) then RoleCaller
      else if has_edge (links (graph v)) (Wire.id sel) (Wire.id node) then RoleCallee
      else RoleDefault
  end.

(** *** The subgraph invariant *)

Definition node_ids (ns : list Wire.Node) : list string := map Wire.id ns.

Definition known (ns : list Wire.Node) (x : string) : bool :=
  existsb (strict_eq x) (node_ids ns).

(** Some edge has an endpoint that is not among the nodes. *)
Definition dangling (ns : list Wire.Node) (es : list Wire.Edge) : bool :=
  existsb (fun e => negb (known ns (Wire.source e) && known ns (Wire.target e))) es.

(** The consuming logic rejects or flags a response: the graph it holds is
    not replaced, or an error is shown. *)
Definition rejected_or_flagged (before after : State) : Prop :=
  graph (view after) = graph (view before) \/ error (view after) <> "".

End App.

(** ** Sample data for the worked scenarios *)

Module Samples.

Definition fn (i f : string) (l : Z) : Wire.Node :=
  {| Wire.id := i; Wire.name := i; Wire.package := Some "metric";
     Wire.file := Some f; Wire.line := Some l |}.

Definition nodeA : Wire.Node := fn "A" "a.go" 2.
Definition nodeB : Wire.Node := fn "B" "b.go" 1.
Definition nodeX : Wire.Node := fn "X" "x.go" 7.

Definition edge (x y : string) : Wire.Edge :=
  {| Wire.source := x; Wire.target := y |}.

(** Neighborhoods of A and of B in the graph X -> A -> B. *)
Definition subA : Wire.Subgraph :=
  {| Wire.root := Some nodeA; Wire.nodes := [nodeA; nodeX; nodeB];
     Wire.edges := [edge "X" "A"; edge "A" "B"] |}.

Definition subB : Wire.Subgraph :=
  {| Wire.root := Some nodeB; Wire.nodes := [nodeB; nodeA];
     Wire.edges := [edge "A" "B"] |}.

(** A subgraph that breaks the invariant: the edge names a node "Z" that is
    not among the nodes. *)
Definition subBroken : Wire.Subgraph :=
  {| Wire.root := Some nodeA; Wire.nodes := [nodeA];
     Wire.edges := [edge "A" "Z"] |}.

(** A 200 response whose body decodes to [v]. *)
Definition ok_response {J} (v : J) : Outcome (Api.Response J) :=
  Resolved {| Api.status := 200; Api.text := "{}"; Api.json := Resolved v |}.

(** A non-2xx response with the given body, which is not JSON. *)
Definition error_response {J} (status : N) (body : string) : Outcome (Api.Response J) :=
  Resolved {| Api.status := status; Api.text := body;
              Api.json := Rejected "Unexpected token" |}.

Definition sourceA : Wire.SourceData :=
  {| Wire.content :=
       Some ("package a" +:+ String SourceView.newline "func A() {}") |}.

Definition found (ns : list Wire.Node) : Wire.SearchData :=
  {| Wire.results := Some ns |}.

(** The view in which A's neighborhood X -> A -> B is shown and A is selected. *)
Definition showing_A : App.View :=
  {| App.query := ""; App.results := []; App.selected := Some nodeA;
     App.graph := {| App.nodes := Wire.nodes subA; App.links := Wire.edges subA |};
     App.source := None; App.loading := false; App.depth := 2;
     App.limit := 60; App.error := "" |}.

End Samples.

(** ** api.js: the paths as strings *)

Module Url.

(** The bytes the form serializer of [URLSearchParams] leaves as they are:
    ASCII digits and letters, and [* - . _]. *)
Definition is_unreserved (c : ascii) : bool :=
  let n := nat_of_ascii c in
  ((48 <=? n)%nat && (n <=? 57)%nat) || ((65 <=? n)%nat && (n <=? 90)%nat)
  || ((97 <=? n)%nat && (n <=? 122)%nat)
  || (n =? 42)%nat || (n =? 45)%nat || (n =? 46)%nat || (n =? 95)%nat.

(** An upper-case hexadecimal digit. *)
Definition hex_digit (n : nat) : ascii :=
  if (n <? 10)%nat then ascii_of_nat (48 + n) else ascii_of_nat (55 + n).

(** [%XX] for a byte. *)
Definition percent_encode (c : ascii) : string :=
  String "%" (String (hex_digit (nat_of_ascii c / 16))
                (String (hex_digit (nat_of_ascii c mod 16)) EmptyString)).

(** One byte of a name or value: kept, a space as [+], or percent-encoded. *)
Definition encode_byte (c : ascii) : string :=
  if is_unreserved c then String c EmptyString
  else if Ascii.eqb c " " then "+"
  else percent_encode c.

(** The [application/x-www-form-urlencoded] serialization of a string, over
    its UTF-8 bytes. *)
Fixpoint form_encode (s : string) : string :=
  match s with
  | EmptyString => EmptyString
  | String c rest => encode_byte c +:+ form_encode rest
  end.

(** The list of name-value pairs a [URLSearchParams] holds. *)
Definition Params : Type := list (string * string).

Definition remove_name (name : string) (ps : Params) : Params :=
  filter (fun p => p.1 <> name) ps.

(** [params.set(name, value)]: the first pair of that name takes the value and
    the others of that name go; without one, the pair is appended. *)
Fixpoint set (name value : string) (ps : Params) : Params :=
  match ps with
  | [] => [(name, value)]
  | (n, v) :: rest =>
      if String.eqb n name then (name, value) :: remove_name name rest
      else (n, v) :: set name value rest
  end.

Definition pair_string (p : string * string) : string :=
  form_encode p.1 +:+ "=" +:+ form_encode p.2.

(** [params.toString()]: the pairs, joined by [&]. *)
Fixpoint toString (ps : Params) : string :=
  match ps with
  | [] => ""
  | [p] => pair_string p
  | p :: rest => pair_string p +:+ "&" +:+ toString rest
  end.

(** [String(n)] for a number that is an integer (below 10^21 in size, where
    JavaScript prints all the digits). *)
Definition number_string (n : Z) : string := pretty n.

(** The parameters each builder collects. *)
Definition params_of (p : Api.Path) : Params :=
  match p with
  | Api.functions q limit =>
      let params := [] in
      let params := match q with
                    | Some query => set "q" query params
                    | None => params
                    end in
      set "limit" (number_string limit) params
  | Api.function_subgraph _ depth limit =>
      [("depth", number_string depth); ("limit", number_string limit)]
  | Api.source_of file => [("file", file)]
  | Api.function_ _ => []
  end.

(** The template string each builder hands to [request]. *)
Definition render (p : Api.Path) : string :=
  match p with
  | Api.functions _ _ => "/api/functions?" +:+ toString (params_of p)
  | Api.function_subgraph functionId _ _ =>
      "/api/function/" +:+ functionId +:+ "/subgraph?" +:+ toString (params_of p)
  | Api.source_of _ => "/api/source?" +:+ toString (params_of p)
  | Api.function_ functionId => "/api/function/" +:+ functionId
  end.

(** What [fetch] is called with: [`${API_BASE}${path}`]. *)
Definition url (API_BASE : string) (p : Api.Path) : string :=
  API_BASE +:+ render p.

(** The byte [c] occurs in [s]. *)
Fixpoint occurs (c : ascii) (s : string) : bool :=
  match s with
  | EmptyString => false
  | String d rest => Ascii.eqb c d || occurs c rest
  end.

(** Every byte of [s] satisfies [P]. *)
Fixpoint all_bytes (P : ascii -> bool) (s : string) : bool :=
  match s with
  | EmptyString => true
  | String c rest => P c && all_bytes P rest
  end.

(** The bytes a serialized name or value is made of. *)
Definition url_safe (c : ascii) : bool :=
  is_unreserved c || Ascii.eqb c "+" || Ascii.eqb c "%".



End Url.

(** ** App.jsx: what the flows touch and what is rendered *)

Module Flows.

Import App.

(** The events of the search flow; the others belong to the selection flow
    and its two parameters. *)
Definition is_search_event (ev : Event) : bool :=
  match ev with
  | Input _ | Tick _ | SearchSettled _ _ => true
  | _ => false
  end.

(** The cells the search flow never writes. *)
Definition selection_cells (v : View) :=
  (selected v, graph v, source v, loading v, depth v, limit v).

(** The cells the selection flow never writes. *)
Definition search_cells (v : View) := (query v, results v).

(** [{error && <span className="status error">{error}</span>}]. *)
Definition error_shown (v : View) : bool := truthy (error v).

(** [{loading && <span className="status">Loading...</span>}]. *)
Definition loading_shown (v : View) : bool := loading v.

(** The nodes handed to the graph with [isSelected] set. *)
Definition selected_nodes (v : View) : list GraphNode :=
  filter (fun g => isSelected g = true) (graphNodes v).

(** A search request as the effect issues them: 40 results, and the text
    only when there is one. *)
Definition effect_search (p : Api.Path) : Prop :=
  match p with
  | Api.functions q l => l = 40%Z /\ q <> Some ""
  | _ => True
  end.

(** Every search request of a log is one the effect issues. *)
Definition log_ok (log : list (Z * Api.Path)) : Prop :=
  Forall (fun r => effect_search r.2) log.

(** The timers that are pending lie within the debounce window ahead. *)
Definition timer_window (s : State) : Prop :=
  length (timers s) <= 1
  /\ forall t, t ∈ timers s -> (now s < due t <= now s + debounce)%Z.

Fixpoint count_newlines (s : string) : nat :=
  match s with
  | EmptyString => 0
  | String c rest =>
      (if Ascii.eqb c SourceView.newline then 1 else 0) + count_newlines rest
  end.

End Flows.

(** * Properties *)

(** ** JavaScript values *)

Module JsFacts.

Lemma truthy_true s : truthy s = true <-> s <> "".
Proof. destruct s; simpl; split; congruence. Qed.

Lemma truthy_false s : truthy s = false <-> s = "".
Proof. destruct s; simpl; split; congruence. Qed.

Lemma strict_eq_true a b : strict_eq a b = true <-> a = b.
Proof. apply String.eqb_eq. Qed.

Lemma or_else_truthy a b : a <> "" -> or_else a b = a.
Proof. intros H. unfold or_else. by apply truthy_true in H as ->. Qed.

Lemma or_else_empty b : or_else "" b = b.
Proof. reflexivity. Qed.

End JsFacts.

(** ** api.js *)

Module ApiFacts.

Import JsFacts.

Section Request.

Context {J : Type}.
Implicit Types res : Api.Response J.

Lemma ok_range res :
  Api.ok res = true <-> (200 <= Api.status res <= 299)%N.
Proof.
  unfold Api.ok. rewrite andb_true_iff, !N.leb_le. tauto.
Qed.

(** The message of the error [request] throws is never the empty string. *)
Lemma failure_message_nonempty res :
  or_else (Api.text res) ("Request failed: " +:+ pretty (Api.status res)) <> "".
Proof.
  unfold or_else. destruct (truthy (Api.text res)) eqn:E.
  - by apply truthy_true.
  - discriminate.
Qed.

(** A failure of [fetch] itself passes through [request] unchanged. *)
Lemma request_network_failure m :
  Api.request (J:=J) (Rejected m) = Rejected m.
Proof. reflexivity. Qed.

(** C8, amended: for a response whose status is outside 200-299, [request]
    throws an error whose message is the response body when the body is
    non-empty and "Request failed: <status>" (the status in decimal) when it is
    empty; for a status in 200-299 it throws no error of its own and its
    outcome is that of [res.json()]: the decoded body, or the decoder's error
    when the body is not JSON. *)
Theorem request_status_error res :
  (~ (200 <= Api.status res <= 299)%N -> Api.text res <> "" ->
     Api.request (Resolved res) = Rejected (Api.text res))
  /\ (~ (200 <= Api.status res <= 299)%N -> Api.text res = "" ->
     Api.request (Resolved res) =
       Rejected ("Request failed: " +:+ pretty (Api.status res)))
  /\ ((200 <= Api.status res <= 299)%N ->
     Api.request (Resolved res) = Api.json res
     /\ forall v, Api.json res = Resolved v -> Api.request (Resolved res) = Resolved v).
Proof.
  unfold Api.request.
  destruct (Api.ok res) eqn:Hok; simpl.
  - apply ok_range in Hok. split; [tauto | split; [tauto |]].
    intros _. split; [reflexivity | tauto].
  - assert (~ (200 <= Api.status res <= 299)%N) as Hout.
    { intros H. apply ok_range in H. congruence. }
    split; [| split; [| tauto]].
    + intros _ Hbody. by rewrite or_else_truthy.
    + by intros _ ->.
Qed.

End Request.

Example request_404_body :
  Api.request (J:=unit)
    (Resolved {| Api.status := 404; Api.text := "function not found";
                 Api.json := Rejected "Unexpected token" |})
  = Rejected "function not found".
Proof. reflexivity. Qed.

(** C8, as stated, fails in its last part: a 200 response whose body is not
    JSON has a success status, and [request] fails with the decoder's error. *)
Lemma request_success_status_can_fail :
  let res : Api.Response unit :=
    {| Api.status := 200; Api.text := "<html>";
       Api.json := Rejected "Unexpected token '<'" |} in
  Api.ok res = true
  /\ Api.request (Resolved res) = Rejected "Unexpected token '<'".
Proof. split; reflexivity. Qed.

Example request_200 :
  Api.request (Resolved {| Api.status := 200; Api.text := "{}";
                           Api.json := Resolved tt |})
  = Resolved tt.
Proof. reflexivity. Qed.

(** The three cases of [request_status_error] on concrete responses: a 500 with an empty
    body, a 404 with a body, and a 204. *)
Lemma request_status_error_witness :
  Api.request (J:=unit)
    (Resolved {| Api.status := 500; Api.text := "";
                 Api.json := Rejected "Unexpected end of JSON input" |})
  = Rejected "Request failed: 500"
  /\ Api.request (J:=unit)
       (Resolved {| Api.status := 404; Api.text := "no such file";
                    Api.json := Rejected "Unexpected token" |})
     = Rejected "no such file"
  /\ Api.request (Resolved {| Api.status := 204; Api.text := "null";
                              Api.json := Resolved tt |})
     = Resolved tt.
Proof.
  split; [|split].
  - apply (request_status_error
             {| Api.status := 500; Api.text := "";
                Api.json := Rejected "Unexpected end of JSON input" |});
      [simpl; lia | reflexivity].
  - apply (request_status_error
             {| Api.status := 404; Api.text := "no such file";
                Api.json := Rejected "Unexpected token" |});
      [simpl; lia | discriminate].
  - apply (request_status_error
             {| Api.status := 204; Api.text := "null"; Api.json := Resolved tt |});
      [simpl; lia | reflexivity].
Defined.

End ApiFacts.

(** ** SourceView *)

Module SourceViewFacts.

Import SourceView JsFacts.

Lemma split_cons content : exists l ls, split content = l :: ls.
Proof.
  induction content as [|c rest IH]; simpl; [by eauto |].
  destruct (Ascii.eqb c newline); [by eauto |].
  destruct IH as (l & ls & ->). eauto.
Qed.

Lemma join_cons_cons l l' ls :
  join (l :: l' :: ls) = l +:+ String newline (join (l' :: ls)).
Proof. reflexivity. Qed.

Lemma join_cons_char c l ls :
  join (String c l :: ls) = String c (join (l :: ls)).
Proof. destruct ls; reflexivity. Qed.

(** Joining the lines with newlines gives the content back. *)
Lemma join_split content : join (split content) = content.
Proof.
  induction content as [|c rest IH]; [done |].
  cbn [split]. destruct (split_cons rest) as (l & ls & Hs).
  rewrite Hs in IH |- *.
  destruct (Ascii.eqb c newline) eqn:E.
  - apply Ascii.eqb_eq in E as ->.
    rewrite join_cons_cons, IH. reflexivity.
  - by rewrite join_cons_char, IH.
Qed.

(** No line contains a newline. *)
Lemma split_no_newline content :
  Forall (fun l => has_newline l = false) (split content).
Proof.
  induction content as [|c rest IH]; simpl.
  - by constructor.
  - destruct (Ascii.eqb c newline) eqn:E.
    + by constructor.
    + destruct (split rest) as [|l ls].
      * constructor; [simpl; by rewrite E | constructor].
      * inversion IH; subst. constructor; [simpl; by rewrite E | done].
Qed.

Example split_two_lines :
  split ("a" +:+ String newline "b") = ["a"; "b"].
Proof. reflexivity. Qed.

Example split_trailing_newline :
  split (String "a" (String newline "")) = ["a"; ""].
Proof. reflexivity. Qed.

Lemma SourceView_rows content highlightLine :
  content <> "" ->
  SourceView (Some content) highlightLine =
    Code (imap (render_line highlightLine) (split content)).
Proof.
  intros H. unfold SourceView. by apply truthy_true in H as ->.
Qed.

(** C9: for a non-empty content, [SourceView] renders one row per line of
    [content.split('\n')] (the lines joined by newlines are the content, and
    no line holds a newline), row [i] carrying the number [i + 1] and the line
    (a blank for an empty line); a row is highlighted exactly when its number
    equals [highlightLine], so a line in range is the only one highlighted, and
    for an absent or out-of-range [highlightLine] every row is rendered and
    none is highlighted. *)
Theorem SourceView_numbered_lines (content : string) (highlightLine : option Z) :
  content <> "" ->
  exists rows : list Row,
    SourceView (Some content) highlightLine = Code rows
    /\ join (split content) = content
    /\ Forall (fun l => has_newline l = false) (split content)
    /\ length rows = length (split content)
    /\ (forall (i : nat) (l : string), split content !! i = Some l ->
          exists row, rows !! i = Some row
            /\ lineNumber row = (Z.of_nat i + 1)%Z
            /\ code_text row = or_else l " "
            /\ (isHighlight row = true <-> highlightLine = Some (Z.of_nat i + 1)%Z))
    /\ (forall n : Z, highlightLine = Some n ->
          (1 <= n <= Z.of_nat (length rows))%Z ->
          forall (i : nat) (row : Row), rows !! i = Some row ->
            (isHighlight row = true <-> i = Z.to_nat (n - 1)))
    /\ (forall n : Z, highlightLine = Some n ->
          (1 <= n <= Z.of_nat (length rows))%Z ->
          exists row, rows !! Z.to_nat (n - 1) = Some row /\ isHighlight row = true)
    /\ ((highlightLine = None
         \/ exists n, highlightLine = Some n
                      /\ ~ (1 <= n <= Z.of_nat (length rows))%Z) ->
          Forall (fun row => isHighlight row = false) rows).
Proof.
  intros Hne. eexists. split; [by apply SourceView_rows |].
  split; [apply join_split |]. split; [apply split_no_newline |].
  split; [apply length_imap |].
  assert (forall (i : nat) row,
             imap (render_line highlightLine) (split content) !! i = Some row ->
             lineNumber row = (Z.of_nat i + 1)%Z
             /\ (isHighlight row = true <-> highlightLine = Some (Z.of_nat i + 1)%Z)
             /\ i < length (split content)) as Hrow.
  { intros i row. rewrite list_lookup_imap.
    destruct (split content !! i) as [l|] eqn:Hl; simpl; [| done].
    intros [= <-]. simpl. rewrite bool_decide_eq_true.
    split; [done |]. split; [done |]. by eapply lookup_lt_Some. }
  split; [| split; [| split]].
  - intros i l Hl. exists (render_line highlightLine i l).
    rewrite list_lookup_imap, Hl. simpl.
    by rewrite bool_decide_eq_true.
  - intros n -> Hn i row Hi. apply Hrow in Hi as (_ & -> & _).
    split; [intros [= ->] | intros ->]; [lia | f_equal; lia].
  - intros n -> Hn. rewrite length_imap in Hn.
    destruct (lookup_lt_is_Some_2 (split content) (Z.to_nat (n - 1))) as [l Hl];
      [lia |].
    exists (render_line (Some n) (Z.to_nat (n - 1)) l).
    rewrite list_lookup_imap, Hl. simpl. split; [done |].
    apply bool_decide_eq_true. f_equal. lia.
  - intros Hout. apply Forall_lookup. intros i row Hi.
    destruct (Hrow i row Hi) as (_ & Hhl & Hlt).
    rewrite length_imap in Hout.
    destruct (isHighlight row); [| done].
    destruct Hhl as [Hhl _]. specialize (Hhl eq_refl).
    destruct Hout as [Hout | (n & Hn & Hout)]; [congruence |].
    rewrite Hhl in Hn. injection Hn as <-. lia.
Qed.

(** [SourceView_numbered_lines] on a three-line file with its second line
    selected. *)
Lemma SourceView_numbered_lines_witness :
  exists rows : list Row,
    SourceView (Some ("a" +:+ String newline ("" +:+ String newline "c"))) (Some 2%Z)
      = Code rows
    /\ length rows = 3.
Proof.
  destruct (SourceView_numbered_lines
              ("a" +:+ String newline ("" +:+ String newline "c")) (Some 2%Z))
    as (rows & Hrows & _ & _ & Hlen & _); [discriminate |].
  exists rows. split; [exact Hrows | exact Hlen].
Defined.

Example SourceView_three_lines :
  SourceView (Some ("a" +:+ String newline ("" +:+ String newline "c"))) (Some 2%Z)
  = Code [ {| lineNumber := 1; isHighlight := false; code_text := "a" |};
           {| lineNumber := 2; isHighlight := true; code_text := " " |};
           {| lineNumber := 3; isHighlight := false; code_text := "c" |} ].
Proof. reflexivity. Qed.

Example SourceView_line_out_of_range :
  SourceView (Some "a") (Some 120%Z)
  = Code [ {| lineNumber := 1; isHighlight := false; code_text := "a" |} ].
Proof. reflexivity. Qed.

(** C10: the empty string is falsy, so [SourceView] renders the placeholder
    for it, exactly as for an absent content, and no line list. *)
Theorem SourceView_empty_content (highlightLine : option Z) :
  SourceView (Some "") highlightLine = Empty
  /\ SourceView (Some "") highlightLine = SourceView None highlightLine.
Proof. split; reflexivity. Qed.

End SourceViewFacts.

(** ** The App component *)

Module AppFacts.

Import App JsFacts Samples.

(** *** Graph rendering *)

(** The two tests of [nodePaint] are the same test: both look for a link from
    the selected node to the painted node. *)
Lemma isCaller_is_isCallee v node : isCaller v node = isCallee v node.
Proof.
  unfold isCaller, isCallee.
  induction (links (graph v)) as [|link ls IH]; simpl; [done |].
  rewrite IH. f_equal. apply andb_comm.
Qed.

(** So the callee colour is never used. *)
Lemma nodePaint_never_callee_color v node :
  color (nodePaint v node) <> role_color RoleCallee.
Proof.
  unfold nodePaint. simpl. rewrite <- isCaller_is_isCallee.
  destruct (isSelected node); [discriminate |].
  destruct (isCaller v node); discriminate.
Qed.

(** A node is painted in the caller colour exactly when it is not selected
    and the selected node has a link to it. *)
Lemma nodePaint_caller_color v node :
  color (nodePaint v node) = role_color RoleCaller
  <-> isSelected node = false /\ isCallee v node = true.
Proof.
  unfold nodePaint. simpl. rewrite <- isCaller_is_isCallee.
  destruct (isSelected node), (isCaller v node); simpl; split;
    try discriminate; try tauto; intros [? ?]; discriminate.
Qed.

(** C2, at the graph X -> A -> B with A selected: X, whose only relation is
    its edge into A, is a caller by the stated precedence but is painted in
    the default colour; B, whose only relation is the edge from A, is a
    callee but is painted in the caller colour. *)
Theorem nodePaint_swaps_caller_test :
  graphNodes showing_A
    = [ {| node_of := nodeA; isSelected := true |};
        {| node_of := nodeX; isSelected := false |};
        {| node_of := nodeB; isSelected := false |} ]
  /\ spec_role showing_A nodeX = RoleCaller
  /\ color (nodePaint showing_A {| node_of := nodeX; isSelected := false |})
       = role_color RoleDefault
  /\ spec_role showing_A nodeB = RoleCallee
  /\ color (nodePaint showing_A {| node_of := nodeB; isSelected := false |})
       = role_color RoleCaller.
Proof. repeat split. Qed.

(** *** [loadGraph] *)

Lemma to_links_id edges : to_links edges = edges.
Proof.
  unfold to_links. induction edges as [|[x y] es IH]; simpl; [done |].
  by rewrite IH.
Qed.

(** A call that has just started is suspended at its first [await]. *)
Lemma loadGraph_call functionId s :
  calls (loadGraph functionId s) !! length (calls s) = Some AwaitSubgraph.
Proof. simpl. by rewrite list_lookup_middle. Qed.

Lemma loadGraph_view functionId s :
  view (loadGraph functionId s) = view (setError "" (setLoading true s)).
Proof. reflexivity. Qed.

Lemma loadGraph_request functionId s :
  requests (loadGraph functionId s)
  = requests s
    ++ [(now s, Api.fetchSubgraph functionId (depth (view s)) (limit (view s)))].
Proof. reflexivity. Qed.

(** Whatever else is in flight, a neighborhood response that succeeds is
    applied: nothing compares the call with the latest one. *)
Lemma subgraphSettled_applies k fetched data s :
  calls s !! k = Some AwaitSubgraph ->
  Api.request fetched = Resolved data ->
  let s' := subgraphSettled k fetched s in
  graph (view s') = {| nodes := Wire.nodes data; links := Wire.edges data |}
  /\ selected (view s') = Wire.root data
  /\ error (view s') = error (view s).
Proof.
  intros Hk Hreq. unfold subgraphSettled. rewrite Hk, Hreq, to_links_id.
  destruct (root_file data); simpl; done.
Qed.

(** A source response that fails leaves [source] as it was. *)
Lemma sourceSettled_failure k fetched m s :
  calls s !! k = Some AwaitSource ->
  Api.request fetched = Rejected m ->
  let s' := sourceSettled k fetched s in
  source (view s') = source (view s)
  /\ selected (view s') = selected (view s)
  /\ graph (view s') = graph (view s)
  /\ error (view s') = m
  /\ loading (view s') = false.
Proof.
  intros Hk Hreq. unfold sourceSettled. rewrite Hk, Hreq. simpl. done.
Qed.

(** The stage of a call is only changed by its own responses. *)
Lemma subgraphSettled_other_call k k' fetched s :
  k <> k' -> calls (subgraphSettled k fetched s) !! k' = calls s !! k'.
Proof.
  intros Hne. unfold subgraphSettled.
  destruct (calls s !! k) as [[| |]|] eqn:Hk; try done.
  destruct (Api.request fetched) as [data|m]; [destruct (root_file data) |];
    simpl; by rewrite list_lookup_insert_ne.
Qed.

(** Two overlapping calls: the response that arrives last decides the
    selection and the graph, whichever call it belongs to. *)
Lemma loadGraph_last_arrival_wins s idA idB fA fB dA dB :
  Api.request fA = Resolved dA ->
  Api.request fB = Resolved dB ->
  let kA := length (calls s) in
  let kB := S kA in
  let s2 := loadGraph idB (loadGraph idA s) in
  selected (view (run s2 [SubgraphSettled kB fB; SubgraphSettled kA fA]))
    = Wire.root dA
  /\ selected (view (run s2 [SubgraphSettled kA fA; SubgraphSettled kB fB]))
    = Wire.root dB.
Proof.
  intros HA HB kA kB s2.
  assert (calls s2 !! kA = Some AwaitSubgraph) as HkA.
  { subst s2 kA. simpl. rewrite lookup_app_l by (rewrite length_app; simpl; lia).
    by rewrite list_lookup_middle. }
  assert (calls s2 !! kB = Some AwaitSubgraph) as HkB.
  { subst s2 kB kA. simpl. rewrite list_lookup_middle; [done |].
    rewrite length_app. simpl. lia. }
  split; simpl.
  - apply subgraphSettled_applies; [| done].
    rewrite subgraphSettled_other_call by (subst kB; lia). done.
  - apply subgraphSettled_applies; [| done].
    rewrite subgraphSettled_other_call by (subst kB; lia). done.
Qed.

(** C1, on the code: [selectNode(A)], then [selectNode(B)] before A's fetch
    resolves, then B's response, then A's. [loadGraph] applies A's response
    although it is the older call: the run ends with A selected and A's
    neighborhood shown, not B's. *)
Theorem stale_selection_overwrites_newer :
  let s :=
    run init [ SelectResult nodeA; SelectResult nodeB;
               SubgraphSettled 1 (ok_response subB);
               SubgraphSettled 0 (ok_response subA) ] in
  selected (view s) = Some nodeA
  /\ graph (view s) = {| nodes := Wire.nodes subA; links := Wire.edges subA |}
  /\ (Wire.id <$> selected (view s)) <> Some "B".
Proof. vm_compute. repeat split. discriminate. Qed.

(** In the other order of arrival the run ends with B. *)
Example selection_in_order :
  selected (view (run init [ SelectResult nodeA; SelectResult nodeB;
                             SubgraphSettled 0 (ok_response subA);
                             SubgraphSettled 1 (ok_response subB) ]))
  = Some nodeB.
Proof. reflexivity. Qed.

(** C3: a [loadGraph] whose neighborhood fetch fails leaves [graph],
    [selected] and [source] as they were, however they were loaded (so a
    neighborhood of A that was shown is still shown, with A selected), puts the
    message of the failure in [error] and sets [loading] to false. *)
Theorem failed_neighborhood_fetch_keeps_state s functionId fetched m :
  Api.request fetched = Rejected m ->
  let s' := subgraphSettled (length (calls s)) fetched (loadGraph functionId s) in
  graph (view s') = graph (view s)
  /\ selected (view s') = selected (view s)
  /\ source (view s') = source (view s)
  /\ error (view s') = m
  /\ loading (view s') = false.
Proof.
  intros Hreq. unfold subgraphSettled.
  rewrite loadGraph_call, Hreq. simpl. done.
Qed.

(** The state after A's neighborhood and source have loaded. *)
Lemma loaded_A_state :
  let s := run init [ SelectResult nodeA; SubgraphSettled 0 (ok_response subA);
                      SourceSettled 0 (ok_response sourceA) ] in
  selected (view s) = Some nodeA
  /\ graph (view s) = {| nodes := Wire.nodes subA; links := Wire.edges subA |}
  /\ source (view s) = Some sourceA
  /\ loading (view s) = false /\ error (view s) = "".
Proof. vm_compute. repeat split. Qed.

(** [failed_neighborhood_fetch_keeps_state] after A has loaded: selecting B
    against a backend that answers 500 keeps A. *)
Lemma failed_neighborhood_fetch_keeps_state_witness :
  let sA := run init [ SelectResult nodeA; SubgraphSettled 0 (ok_response subA);
                       SourceSettled 0 (ok_response sourceA) ] in
  let s' := subgraphSettled (length (calls sA)) (error_response 500 "")
              (loadGraph "B" sA) in
  graph (view s') = graph (view sA)
  /\ selected (view s') = selected (view sA)
  /\ source (view s') = source (view sA)
  /\ error (view s') = "Request failed: 500"
  /\ loading (view s') = false.
Proof.
  exact (failed_neighborhood_fetch_keeps_state
           (run init [ SelectResult nodeA; SubgraphSettled 0 (ok_response subA);
                       SourceSettled 0 (ok_response sourceA) ])
           "B" (error_response 500 "") "Request failed: 500" eq_refl).
Defined.

(** C4, on the code: A is loaded with its source; then B is selected, its
    neighborhood arrives and its source fetch fails. B's neighborhood and
    selection are kept, but [source] still holds the text of a.go, and the
    source panel renders those lines instead of the placeholder. *)
Theorem failed_source_fetch_shows_previous_file :
  let s :=
    run init [ SelectResult nodeA; SubgraphSettled 0 (ok_response subA);
               SourceSettled 0 (ok_response sourceA);
               SelectResult nodeB; SubgraphSettled 1 (ok_response subB);
               SourceSettled 1 (error_response 404 "open b.go: no such file") ] in
  selected (view s) = Some nodeB
  /\ graph (view s) = {| nodes := Wire.nodes subB; links := Wire.edges subB |}
  /\ error (view s) = "open b.go: no such file"
  /\ source (view s) = Some sourceA
  /\ source_panel (view s)
     = SourceView.Code
         [ {| SourceView.lineNumber := 1; SourceView.isHighlight := true;
              SourceView.code_text := "package a" |};
           {| SourceView.lineNumber := 2; SourceView.isHighlight := false;
              SourceView.code_text := "func A() {}" |} ]
  /\ source_panel (view s) <> SourceView.Empty.
Proof. vm_compute. repeat split. discriminate. Qed.

(** When the root has no file the same sequence does clear the panel. *)
Example no_file_clears_source :
  let rootless := {| Wire.root := Some {| Wire.id := "C"; Wire.name := "C";
                                          Wire.package := None; Wire.file := None;
                                          Wire.line := None |};
                     Wire.nodes := []; Wire.edges := [] |} in
  source_panel
    (view (run init [ SelectResult nodeA; SubgraphSettled 0 (ok_response subA);
                      SourceSettled 0 (ok_response sourceA);
                      SelectResult nodeB; SubgraphSettled 1 (ok_response rootless) ]))
  = SourceView.Empty.
Proof. reflexivity. Qed.

(** C5, as stated, fails: the neighborhood of A with an edge to a node "Z"
    that is not among the nodes is stored with that edge and no error. *)
Lemma dangling_subgraph_is_rendered :
  let s := loadGraph "A" init in
  let s' := subgraphSettled 0 (ok_response subBroken) s in
  dangling (Wire.nodes subBroken) (Wire.edges subBroken) = true
  /\ links (graph (view s')) = [edge "A" "Z"]
  /\ error (view s') = ""
  /\ ~ rejected_or_flagged s s'.
Proof.
  vm_compute. repeat split. intros [H | H]; [discriminate | by apply H].
Qed.

(** C5, amended: whatever nodes and edges a successful neighborhood response
    holds, with or without dangling endpoints, [loadGraph] stores the nodes
    and the edges as returned, selects the returned root and leaves [error]
    empty; the edge endpoints are not checked. *)
Theorem subgraph_stored_unchecked s functionId fetched data :
  Api.request fetched = Resolved data ->
  let s' := subgraphSettled (length (calls s)) fetched (loadGraph functionId s) in
  graph (view s') = {| nodes := Wire.nodes data; links := Wire.edges data |}
  /\ selected (view s') = Wire.root data
  /\ error (view s') = "".
Proof.
  intros Hreq s'. subst s'.
  destruct (subgraphSettled_applies (length (calls s)) fetched data
              (loadGraph functionId s) (loadGraph_call functionId s) Hreq)
    as (Hg & Hsel & Herr).
  split; [exact Hg |]. split; [exact Hsel |]. by rewrite Herr.
Qed.

Lemma subgraph_stored_unchecked_witness :
  let s' := subgraphSettled 0 (ok_response subBroken) (loadGraph "A" init) in
  dangling (Wire.nodes subBroken) (Wire.edges subBroken) = true
  /\ graph (view s')
     = {| nodes := Wire.nodes subBroken; links := Wire.edges subBroken |}
  /\ selected (view s') = Some nodeA
  /\ error (view s') = "".
Proof.
  split; [reflexivity |].
  exact (subgraph_stored_unchecked init "A" (ok_response subBroken) subBroken eq_refl).
Defined.

(** *** The search effect *)

Lemma flags_insert_phase (l : list Effect) e eff p :
  l !! e = Some eff ->
  forall j, active <$> (<[e := at_phase p eff]> l !! j) = active <$> (l !! j).
Proof.
  intros He j. destruct (decide (e = j)) as [<-|Hne].
  - rewrite list_lookup_insert_eq by (by eapply lookup_lt_Some). by rewrite He.
  - by rewrite list_lookup_insert_ne.
Qed.

(** The invariant only reads the [active] flags, the number of runs and the
    pending timers. *)
Lemma search_inv_transfer s s' :
  search_inv s ->
  length (effects s') = length (effects s) ->
  (forall e, active <$> (effects s' !! e) = active <$> (effects s !! e)) ->
  (forall t, t ∈ timers s' -> t ∈ timers s) ->
  search_inv s'.
Proof.
  intros [Hact Htim] Hlen Hflags Hsub. split.
  - intros e eff He Ha. rewrite Hlen.
    specialize (Hflags e). rewrite He in Hflags. simpl in Hflags.
    destruct (effects s !! e) as [eff0|] eqn:He0; [| done].
    injection Hflags as Hf. apply (Hact e eff0 He0). congruence.
  - intros t Ht. rewrite Hlen. by apply Htim, Hsub.
Qed.

Lemma fire_flags t s :
  length (effects (fire t s)) = length (effects s)
  /\ (forall e, active <$> (effects (fire t s) !! e) = active <$> (effects s !! e))
  /\ timers (fire t s) = timers s
  /\ view (fire t s) = view s
  /\ now (fire t s) = now s
  /\ calls (fire t s) = calls s.
Proof.
  unfold fire. destruct (effects s !! owner t) as [eff|] eqn:He; simpl; [| done].
  split; [apply length_insert |]. split; [| done].
  by apply flags_insert_phase.
Qed.

Lemma fire_all_flags ts s :
  let s' := foldl (fun acc x => fire x acc) s ts in
  length (effects s') = length (effects s)
  /\ (forall e, active <$> (effects s' !! e) = active <$> (effects s !! e))
  /\ timers s' = timers s
  /\ view s' = view s
  /\ now s' = now s
  /\ calls s' = calls s.
Proof.
  revert s. induction ts as [|t ts IH]; intros s; simpl; [done |].
  destruct (IH (fire t s)) as (H1 & H2 & H3 & H4 & H5 & H6).
  destruct (fire_flags t s) as (F1 & F2 & F3 & F4 & F5 & F6).
  rewrite H1, H3, H4, H5, H6. repeat split; try done.
  intros e. by rewrite H2.
Qed.

Lemma tick_view t s : view (tick t s) = view s.
Proof.
  unfold tick. case_bool_decide; [done |].
  by rewrite (proj1 (proj2 (proj2 (proj2 (fire_all_flags _ _))))).
Qed.

Lemma search_inv_tick t s : search_inv s -> search_inv (tick t s).
Proof.
  intros Hinv. unfold tick. case_bool_decide; [done |].
  match goal with |- search_inv (foldl _ ?s0 ?ts) =>
    destruct (fire_all_flags ts s0) as (H1 & H2 & H3 & _) end.
  eapply search_inv_transfer; [exact Hinv | by rewrite H1 | by intros e; rewrite H2 |].
  intros x. rewrite H3. simpl. rewrite list_elem_of_filter. tauto.
Qed.

(** The four ways a search can settle: resolved or rejected, for a run that
    is still active or not. *)
Ltac settled_cases fetched eff :=
  destruct (Api.request fetched), (active eff); simpl.

Lemma search_inv_searchSettled e fetched s :
  search_inv s -> search_inv (searchSettled e fetched s).
Proof.
  intros Hinv. unfold searchSettled.
  destruct (effects s !! e) as [eff|] eqn:He; [| done].
  destruct (phase eff); try done.
  eapply (search_inv_transfer s); [done | | |].
  - settled_cases fetched eff; apply length_insert.
  - intros j. settled_cases fetched eff; by apply flags_insert_phase.
  - intros t. by settled_cases fetched eff.
Qed.

Lemma filter_none {A} (P : A -> Prop) `{!forall x, Decision (P x)} (l : list A) :
  (forall x, x ∈ l -> ~ P x) -> filter P l = [].
Proof.
  induction l as [|x l IH]; intros Hall; [done |].
  rewrite filter_cons_False by (apply Hall; left).
  apply IH. intros y Hy. apply Hall. by right.
Qed.

(** An input that changes the text: every earlier run is inactive, the new
    run is armed, and its timer is the only one pending. *)
Lemma onQueryChange_armed q s :
  search_inv s ->
  q <> query (view s) ->
  let s' := onQueryChange q s in
  (exists effs,
      effects s' = effs ++ [{| effect_query := q; active := true; phase := Scheduled |}]
      /\ length effs = length (effects s)
      /\ Forall (fun eff => active eff = false) effs
      /\ timers s' = [{| owner := length effs; due := (now s + debounce)%Z |}])
  /\ view s' = view (setQuery q s)
  /\ now s' = now s
  /\ requests s' = requests s
  /\ calls s' = calls s.
Proof.
  intros [Hact Htim] Hne. unfold onQueryChange.
  rewrite bool_decide_eq_false_2 by done. simpl.
  destruct (length (effects s)) as [|e] eqn:Hlen.
  - apply nil_length_inv in Hlen as Heff.
    assert (timers s = []) as Ht.
    { destruct (timers s) as [|t ts]; [done |].
      specialize (Htim t ltac:(left)). lia. }
    simpl. rewrite Heff, Ht. split; [| done].
    exists []. by repeat split.
  - simpl. split; [| done].
    exists (alter deactivate e (effects s)).
    rewrite length_alter, Hlen. split; [done |]. split; [done |]. split.
    + apply Forall_lookup. intros j eff Hj.
      destruct (decide (e = j)) as [<-|Hej].
      * rewrite list_lookup_alter_eq in Hj.
        destruct (effects s !! e); simplify_eq/=. done.
      * rewrite list_lookup_alter_ne in Hj by done.
        destruct (active eff) eqn:Ha; [| done].
        specialize (Hact j eff Hj Ha). lia.
    + rewrite filter_none; [done |].
      intros t Ht Ho. specialize (Htim t Ht). lia.
Qed.

Lemma search_inv_onQueryChange q s :
  search_inv s -> search_inv (onQueryChange q s).
Proof.
  intros Hinv. destruct (decide (q = query (view s))) as [Heq|Hne].
  - unfold onQueryChange. by rewrite bool_decide_eq_true_2.
  - destruct (onQueryChange_armed q s Hinv Hne)
      as ((effs & Heffs & Hlen & Hin & Htim) & _).
    split.
    + intros e eff He Ha. rewrite Heffs in He |- *.
      rewrite length_app. simpl.
      apply lookup_app_Some in He as [He | [Hge He]].
      * rewrite Forall_lookup in Hin. specialize (Hin e eff He). congruence.
      * apply list_lookup_singleton_Some in He as [He _]. lia.
    + intros t. rewrite Htim, Heffs, list_elem_of_singleton. intros ->.
      rewrite length_app. simpl. lia.
Qed.

Lemma search_inv_init : search_inv init.
Proof.
  split.
  - intros [|e] eff He Ha; [done | by destruct e].
  - intros t Ht. apply list_elem_of_singleton in Ht as ->. done.
Qed.

Lemma search_inv_step s ev : search_inv s -> search_inv (step s ev).
Proof.
  intros Hinv. destruct ev; simpl; try done.
  - by apply search_inv_onQueryChange.
  - unfold onNodeClick. destruct node as [n|]; [| done].
    by destruct (truthy (Wire.id n)).
  - by apply search_inv_tick.
  - by apply search_inv_searchSettled.
  - unfold subgraphSettled. destruct (calls s !! k) as [[| |]|]; try done.
    destruct (Api.request fetched) as [data|m]; [destruct (root_file data) |]; done.
  - unfold sourceSettled. destruct (calls s !! k) as [[| |]|]; try done.
    by destruct (Api.request fetched).
Qed.

Lemma search_inv_reachable s : reachable s -> search_inv s.
Proof.
  induction 1; [apply search_inv_init | by apply search_inv_step].
Qed.

(** The only pending timer is due: it fires, and the search of the latest
    run is issued at the time the timer was due. *)
Lemma tick_fires s T effs eff d :
  effects s = effs ++ [eff] ->
  timers s = [{| owner := length effs; due := d |}] ->
  (now s <= T)%Z -> (d <= T)%Z ->
  effects (tick T s) = effs ++ [at_phase InFlight eff]
  /\ timers (tick T s) = []
  /\ requests (tick T s)
     = requests s ++ [(d, Api.searchFunctions (effect_query eff))]
  /\ view (tick T s) = view s
  /\ now (tick T s) = T.
Proof.
  intros Heff Htim Hnow Hdue. unfold tick.
  rewrite bool_decide_eq_false_2 by lia. rewrite Htim.
  rewrite !filter_cons, !filter_nil. simpl. repeat case_decide; try lia.
  simpl. unfold fire. simpl. rewrite Heff, list_lookup_middle by done. simpl.
  rewrite insert_app_r_alt, Nat.sub_diag by done. done.
Qed.

(** The only pending timer is not due yet: nothing happens but the clock. *)
Lemma tick_waits s T tm :
  timers s = [tm] ->
  (now s <= T < due tm)%Z ->
  effects (tick T s) = effects s
  /\ timers (tick T s) = [tm]
  /\ requests (tick T s) = requests s
  /\ view (tick T s) = view s
  /\ now (tick T s) = T.
Proof.
  intros Htim Hnow. unfold tick.
  rewrite bool_decide_eq_false_2 by lia. rewrite Htim.
  rewrite !filter_cons, !filter_nil. simpl. repeat case_decide; try lia.
  done.
Qed.

Lemma tick_now s T : (now s <= T)%Z -> now (tick T s) = T.
Proof.
  intros Hnow. unfold tick. rewrite bool_decide_eq_false_2 by lia.
  by rewrite (proj1 (proj2 (proj2 (proj2 (proj2 (fire_all_flags _ _)))))).
Qed.

Lemma armed_search_inv effs eff tm s :
  effects s = effs ++ [eff] ->
  Forall (fun x => active x = false) effs ->
  timers s = [tm] -> owner tm = length effs ->
  search_inv s.
Proof.
  intros Heff Hin Htim Hown. split.
  - intros e x He Ha. rewrite Heff in He |- *. rewrite length_app. simpl.
    apply lookup_app_Some in He as [He | [Hge He]].
    + rewrite Forall_lookup in Hin. specialize (Hin e x He). congruence.
    + apply list_lookup_singleton_Some in He as [He _]. lia.
  - intros t. rewrite Htim, Heff, list_elem_of_singleton. intros ->.
    rewrite length_app. simpl. lia.
Qed.

(** The first input of a burst arms the timer. *)
Lemma type_at_first s t q :
  search_inv s ->
  (now s <= t)%Z ->
  q <> query (view s) ->
  armed_at t q (type_at s (t, q))
  /\ requests (type_at s (t, q)) = requests (tick t s).
Proof.
  intros Hinv Hnow Hq. unfold type_at. simpl.
  destruct (onQueryChange_armed q (tick t s)) as
    ((effs & Heff & _ & Hin & Htim) & Hview & Hn & Hreq & _).
  { by apply search_inv_tick. }
  { by rewrite tick_view. }
  split; [| done].
  exists effs. rewrite tick_now in Htim, Hn by done.
  rewrite Hview. by repeat split.
Qed.

(** A further input inside the window cancels the pending timer and arms a
    new one; no request is issued. *)
Lemma type_at_armed s t q t' q' :
  armed_at t q s ->
  (t <= t' < t + debounce)%Z ->
  q' <> q ->
  armed_at t' q' (type_at s (t', q'))
  /\ requests (type_at s (t', q')) = requests s.
Proof.
  intros (effs & Heff & Hin & Htim & Hquery & Hnow) Ht Hq.
  unfold type_at. simpl.
  destruct (tick_waits s t' _ Htim) as (Te & Tt & Tr & Tv & Tn);
    [simpl; lia |].
  destruct (onQueryChange_armed q' (tick t' s)) as
    ((effs' & Heff' & _ & Hin' & Htim') & Hview & Hn & Hreq & _).
  { eapply armed_search_inv; [by rewrite Te | done | done | done]. }
  { by rewrite Tv, Hquery. }
  split; [| by rewrite Hreq].
  exists effs'. rewrite Tn in Htim', Hn. rewrite Hview. by repeat split.
Qed.

(** The rest of the burst. *)
Lemma type_burst_armed rest : forall s t q,
  armed_at t q s ->
  closely_spaced t rest ->
  each_changes q rest ->
  armed_at (last_input (t, q) rest).1 (last_input (t, q) rest).2 (type_burst s rest)
  /\ requests (type_burst s rest) = requests s.
Proof.
  induction rest as [|[t' q'] rest IH]; intros s t q Harm Hsp Hch; [done |].
  simpl in Hsp, Hch. destruct Hsp as [Ht Hsp], Hch as [Hq Hch].
  destruct (type_at_armed s t q t' q' Harm Ht Hq) as [Harm' Hreq'].
  destruct (IH _ _ _ Harm' Hsp Hch) as [Hfin Hreq].
  simpl. split; [exact Hfin | by rewrite Hreq].
Qed.

(** The guard: a response for a run that is no longer active changes
    nothing the component shows. *)
Lemma searchSettled_inactive e fetched eff s :
  effects s !! e = Some eff ->
  active eff = false ->
  view (searchSettled e fetched s) = view s.
Proof.
  intros He Ha. unfold searchSettled. rewrite He.
  destruct (phase eff); try done.
  rewrite Ha. by destruct (Api.request fetched).
Qed.

Lemma searchSettled_other e e' fetched s :
  e <> e' -> effects (searchSettled e fetched s) !! e' = effects s !! e'.
Proof.
  intros Hne. unfold searchSettled.
  destruct (effects s !! e) as [eff|] eqn:He; [| done].
  destruct (phase eff); try done.
  settled_cases fetched eff; by rewrite list_lookup_insert_ne.
Qed.

(** The response of the active run in flight replaces [results]. *)
Lemma searchSettled_active e fetched data eff s :
  effects s !! e = Some eff ->
  active eff = true -> phase eff = InFlight ->
  Api.request fetched = Resolved data ->
  results (view (searchSettled e fetched s)) = or_default (Wire.results data) [].
Proof.
  intros He Ha Hp Hreq. unfold searchSettled. by rewrite He, Hp, Hreq, Ha.
Qed.

(** What a response does to the view depends on the view and on the run it
    belongs to, on nothing else. *)
Lemma searchSettled_view_congr e fetched s s' :
  view s = view s' ->
  effects s !! e = effects s' !! e ->
  view (searchSettled e fetched s) = view (searchSettled e fetched s').
Proof.
  intros Hv He. unfold searchSettled. rewrite <- He.
  destruct (effects s !! e) as [eff|]; [| done].
  destruct (phase eff); try done.
  settled_cases fetched eff; by rewrite ?Hv.
Qed.

Lemma reachable_run s evs : reachable s -> reachable (run s evs).
Proof.
  revert s. induction evs as [|ev evs IH]; intros s Hs; [done |].
  simpl. apply IH. by constructor.
Qed.

(** C6: in any reachable state, let a newer query [q2] be typed and its search
    be issued (the timer fires 250 after the input). Every earlier run of the
    effect, with its search still in flight or not, is then inactive, its
    response changes nothing the component shows, and in both orders of
    arrival the view ends as if only the newer response had arrived: with the
    newer response's results. *)
Theorem stale_search_response_discarded s q2 e1 f1 f2 d2 T :
  reachable s ->
  q2 <> query (view s) ->
  e1 < length (effects s) ->
  (now s + debounce <= T)%Z ->
  Api.request f2 = Resolved d2 ->
  let e2 := length (effects s) in
  let s2 := run s [Input q2; Tick T] in
  requests s2 = requests s ++ [((now s + debounce)%Z, Api.searchFunctions q2)]
  /\ (exists eff1, effects s2 !! e1 = Some eff1 /\ active eff1 = false)
  /\ view (step s2 (SearchSettled e1 f1)) = view s2
  /\ results (view (step s2 (SearchSettled e2 f2))) = or_default (Wire.results d2) []
  /\ view (run s2 [SearchSettled e2 f2; SearchSettled e1 f1])
     = view (step s2 (SearchSettled e2 f2))
  /\ view (run s2 [SearchSettled e1 f1; SearchSettled e2 f2])
     = view (step s2 (SearchSettled e2 f2)).
Proof.
  intros Hreach Hq He1 HT Hf2 e2 s2.
  apply search_inv_reachable in Hreach as Hinv.
  destruct (onQueryChange_armed q2 s Hinv Hq) as
    ((effs & Heff & Hlen & Hin & Htim) & Hview & Hn & Hreq & _).
  destruct (tick_fires (onQueryChange q2 s) T effs _ _ Heff Htim)
    as (Te & Tt & Tr & Tv & Tn);
    [rewrite Hn; unfold debounce in *; lia | unfold debounce in *; lia |].
  assert (exists eff1, effs !! e1 = Some eff1 /\ active eff1 = false)
    as (eff1 & Heff1 & Ha1).
  { destruct (lookup_lt_is_Some_2 effs e1) as [eff1 Heff1]; [lia |].
    exists eff1. split; [done |].
    rewrite Forall_lookup in Hin. by eapply Hin. }
  assert (effects s2 !! e1 = Some eff1) as He1s2.
  { subst s2. simpl. rewrite Te. by apply lookup_app_l_Some. }
  assert (effects s2 !! e2
          = Some (at_phase InFlight
                    {| effect_query := q2; active := true; phase := Scheduled |}))
    as He2s2.
  { subst s2 e2. simpl. rewrite Te, <- Hlen. by rewrite list_lookup_middle. }
  assert (e1 <> e2) as Hne by (subst e2; lia).
  split; [subst s2; simpl; by rewrite Tr, Hreq |].
  split; [by exists eff1 |].
  split; [by eapply searchSettled_inactive |].
  split; [by eapply searchSettled_active |].
  split; simpl.
  - eapply searchSettled_inactive; [| exact Ha1].
    rewrite searchSettled_other by done. exact He1s2.
  - apply searchSettled_view_congr.
    + by eapply searchSettled_inactive.
    + by apply searchSettled_other.
Qed.

(** [stale_search_response_discarded] for "foo" then "bar": the search for
    "foo" is in flight when "bar" is typed, and the response for "foo"
    arrives last. *)
Lemma stale_search_response_discarded_witness :
  let s := run init [Input "foo"; Tick 300] in
  let s2 := run s [Input "bar"; Tick 600] in
  requests s = [(250%Z, Api.functions (Some "foo") 40)]
  /\ requests s2 = requests s ++ [(550%Z, Api.functions (Some "bar") 40)]
  /\ results (view (run s2 [ SearchSettled 2 (ok_response (found [nodeB]));
                              SearchSettled 1 (ok_response (found [nodeA])) ]))
     = [nodeB].
Proof.
  split; [reflexivity |].
  pose proof (stale_search_response_discarded
                (run init [Input "foo"; Tick 300]) "bar" 1
                (ok_response (found [nodeA])) (ok_response (found [nodeB]))
                (found [nodeB]) 600) as H.
  destruct H as (Hreq & _ & _ & Hres & Hlast & _).
  - apply reachable_run, reachable_init.
  - discriminate.
  - vm_compute. lia.
  - vm_compute. discriminate.
  - reflexivity.
  - split; [exact Hreq |]. exact (eq_trans (f_equal results Hlast) Hres).
Defined.

(** C7: from any reachable state, a burst of inputs, each changing the text
    and each less than 250 after the one before, issues no request while it
    lasts and leaves one timer pending, due 250 after the last input; once
    that time has come exactly one request has been issued since the first
    input: the search for the last input's text, at 250 after the last input,
    and no timer is left. *)
Theorem debounce_coalesces_burst s t1 q1 rest T :
  reachable s ->
  (now s <= t1)%Z ->
  closely_spaced t1 rest ->
  each_changes (query (view s)) ((t1, q1) :: rest) ->
  ((last_input (t1, q1) rest).1 + debounce <= T)%Z ->
  let tn := (last_input (t1, q1) rest).1 in
  let qn := (last_input (t1, q1) rest).2 in
  let s' := type_burst s ((t1, q1) :: rest) in
  requests s' = requests (tick t1 s)
  /\ (exists e, timers s' = [{| owner := e; due := (tn + debounce)%Z |}])
  /\ requests (tick T s')
     = requests (tick t1 s) ++ [((tn + debounce)%Z, Api.searchFunctions qn)]
  /\ timers (tick T s') = [].
Proof.
  intros Hreach Hnow Hsp [Hq Hch] HT tn qn s'.
  apply search_inv_reachable in Hreach as Hinv.
  destruct (type_at_first s t1 q1 Hinv Hnow Hq) as [Harm Hreq1].
  destruct (type_burst_armed rest _ _ _ Harm Hsp Hch) as [Hfin Hreq].
  fold tn qn in Hfin. change (type_burst (type_at s (t1, q1)) rest) with s' in *.
  destruct Hfin as (effs & Heff & Hin & Htim & Hquery & Hn).
  destruct (tick_fires s' T effs _ _ Heff Htim) as (_ & Tt & Tr & _);
    [rewrite Hn; unfold debounce in *; lia | lia |].
  split; [by rewrite Hreq |]. split; [by eexists |].
  split; [| done]. rewrite Tr, Hreq, Hreq1. done.
Qed.

(** [debounce_coalesces_burst] for inputs at 10, 60 and 110 after mounting:
    one request, at 360, for the text typed at 110. *)
Lemma debounce_coalesces_burst_witness :
  let s' := type_burst init [(10%Z, "f"); (60%Z, "fo"); (110%Z, "foo")] in
  requests s' = []
  /\ requests (tick 360 s') = [(360%Z, Api.functions (Some "foo") 40)]
  /\ timers (tick 360 s') = [].
Proof.
  destruct (debounce_coalesces_burst init 10 "f" [(60%Z, "fo"); (110%Z, "foo")] 360)
    as (Hreq & _ & Hone & Hnone).
  - apply reachable_init.
  - vm_compute. discriminate.
  - simpl. unfold debounce. lia.
  - simpl. repeat split; discriminate.
  - vm_compute. discriminate.
  - split; [exact Hreq |]. split; [exact Hone | exact Hnone].
Defined.

Example debounce_after_window :
  requests (run init [ Tick 10; Input "f"; Tick 300; Input "fo"; Tick 600 ])
  = [ (260%Z, Api.functions (Some "f") 40); (550%Z, Api.functions (Some "fo") 40) ].
Proof. reflexivity. Qed.

Example debounce_initial_empty_query :
  requests (run init [Tick 250]) = [(250%Z, Api.functions None 40)].
Proof. reflexivity. Qed.

End AppFacts.

(** ** api.js: the paths as strings *)

Module UrlFacts.

Import Url.

Example form_encode_sample :
  form_encode "Gather all&compare=1/2" = "Gather+all%26compare%3D1%2F2".
Proof. reflexivity. Qed.

Example render_search_sample :
  render (Api.searchFunctions "a b") = "/api/functions?q=a+b&limit=40"
  /\ render (Api.searchFunctions "") = "/api/functions?limit=40"
  /\ render (Api.fetchSubgraph "f1" 2 60) = "/api/function/f1/subgraph?depth=2&limit=60"
  /\ render (Api.fetchSource "metric.go") = "/api/source?file=metric.go".
Proof. repeat split. Qed.

Lemma app_assoc (a b c : string) : (a +:+ b) +:+ c = a +:+ (b +:+ c).
Proof.
  induction a as [|x a IH]; [done |].
  change (String x ((a +:+ b) +:+ c) = String x (a +:+ (b +:+ c))).
  by rewrite IH.
Qed.

Lemma hex_digit_unreserved n : n < 16 -> is_unreserved (hex_digit n) = true.
Proof. intros H. do 16 (destruct n as [|n]; [reflexivity |]). lia. Qed.


Lemma hex_digit_not_special n :
  n < 16 -> Ascii.eqb (hex_digit n) "+" = false /\ Ascii.eqb (hex_digit n) "%" = false.
Proof. intros H. do 16 (destruct n as [|n]; [split; reflexivity |]). lia. Qed.


Lemma byte_halves c :
  nat_of_ascii c / 16 < 16 /\ nat_of_ascii c mod 16 < 16
  /\ ascii_of_nat (16 * (nat_of_ascii c / 16) + nat_of_ascii c mod 16) = c.
Proof.
  pose proof (nat_ascii_bounded c) as Hb.
  split; [apply Nat.Div0.div_lt_upper_bound; lia |].
  split; [apply Nat.mod_upper_bound; lia |].
  rewrite <- Nat.div_mod_eq. apply ascii_nat_embedding.
Qed.

Lemma all_bytes_app P a b :
  all_bytes P (a +:+ b) = all_bytes P a && all_bytes P b.
Proof.
  induction a as [|x a IH]; simpl; [done |]. by rewrite IH, andb_assoc.
Qed.

Lemma url_safe_unreserved c : is_unreserved c = true -> url_safe c = true.
Proof. intros H. unfold url_safe. by rewrite H. Qed.

Lemma encode_byte_safe c : all_bytes url_safe (encode_byte c) = true.
Proof.
  unfold encode_byte. destruct (is_unreserved c) eqn:Hu.
  - cbn [all_bytes]. by rewrite url_safe_unreserved.
  - destruct (Ascii.eqb c " "); [reflexivity |].
    destruct (byte_halves c) as (Hh & Hl & _).
    unfold percent_encode. cbn [all_bytes].
    rewrite !(url_safe_unreserved (hex_digit _)) by (by apply hex_digit_unreserved).
    reflexivity.
Qed.

Lemma form_encode_safe s : all_bytes url_safe (form_encode s) = true.
Proof.
  induction s as [|c s IH]; simpl; [done |].
  by rewrite all_bytes_app, encode_byte_safe, IH.
Qed.

Lemma all_bytes_occurs P s d :
  all_bytes P s = true -> occurs d s = true -> P d = true.
Proof.
  induction s as [|c s IH]; simpl; [done |].
  intros [Hc Hs]%andb_true_iff [Hd | Hd]%orb_true_iff.
  - by apply Ascii.eqb_eq in Hd as ->.
  - by apply IH.
Qed.

(** X1: a serialized name or value consists of letters, digits, [* - . _],
    [+] and [%] only, so the text of a query or the name of a file can never
    put a delimiter of the URL ([&], [=], [?], [#], [/]) or a space into it. *)
Theorem form_encode_no_delimiters (s : string) :
  all_bytes url_safe (form_encode s) = true
  /\ Forall (fun d => occurs d (form_encode s) = false)
       ["&"; "="; "?"; "#"; "/"; " "]%char.
Proof.
  pose proof (form_encode_safe s) as Hsafe. split; [done |].
  repeat constructor;
    match goal with |- occurs ?d _ = false =>
      destruct (occurs d (form_encode s)) eqn:Ho; [| done];
      by apply (all_bytes_occurs _ _ _ Hsafe) in Ho
    end.
Qed.

Lemma app_cons x (a b : string) : String x a +:+ b = String x (a +:+ b).
Proof. reflexivity. Qed.






Lemma length_app (a b : string) :
  String.length (a +:+ b) = String.length a + String.length b.
Proof.
  induction a as [|x a IH]; [done |].
  rewrite app_cons. simpl. by rewrite IH.
Qed.








(** X5: the function id is put into the path as it is, without encoding:
    asking for the function whose id is [id] followed by
    [/subgraph?depth=d&limit=l] is the same URL as asking for the
    neighborhood of [id] with depth [d] and limit [l]. *)
Theorem function_id_not_encoded (API_BASE id : string) (d l : Z) :
  url API_BASE
    (Api.fetchFunction
       (id +:+ "/subgraph?depth=" +:+ form_encode (number_string d)
           +:+ "&limit=" +:+ form_encode (number_string l)))
  = url API_BASE (Api.fetchSubgraph id d l).
Proof.
  unfold url, Api.fetchFunction, Api.fetchSubgraph, render.
  do 3 f_equal.
Qed.

End UrlFacts.

(** ** App.jsx: loading a neighborhood, from the click to the source panel *)

Module LoadFacts.

Import App Flows JsFacts Samples.

(** The call that [loadGraph] has just started, after its neighborhood
    arrived with a root that has a file: it waits for the source. *)
Lemma subgraphSettled_chains s id fetched data f :
  Api.request fetched = Resolved data ->
  root_file data = Some f ->
  let k := length (calls s) in
  let s1 := subgraphSettled k fetched (loadGraph id s) in
  calls s1 !! k = Some AwaitSource
  /\ view s1
     = view (setSelected (Wire.root data)
               (setGraph {| nodes := Wire.nodes data; links := Wire.edges data |}
                  (loadGraph id s)))
  /\ requests s1
     = requests s
       ++ [(now s, Api.fetchSubgraph id (depth (view s)) (limit (view s)));
           (now s, Api.fetchSource f)].
Proof.
  intros Hreq Hf k s1. subst s1 k. unfold subgraphSettled.
  rewrite AppFacts.loadGraph_call, Hreq, Hf, AppFacts.to_links_id. simpl.
  split; [| split; [done |]].
  - apply list_lookup_insert_eq. rewrite length_app. simpl. lia.
  - by rewrite <- app_assoc.
Qed.

Lemma root_file_Some data r f :
  Wire.root data = Some r -> Wire.file r = Some f -> f <> "" ->
  root_file data = Some f.
Proof.
  intros Hr Hf Hne. unfold root_file. rewrite Hr, Hf.
  by apply truthy_true in Hne as ->.
Qed.

Lemma root_file_None data :
  (Wire.root data = None
   \/ exists r, Wire.root data = Some r
                /\ (Wire.file r = None \/ Wire.file r = Some "")) ->
  root_file data = None.
Proof.
  unfold root_file. intros [-> | (r & -> & [-> | ->])]; done.
Qed.

(** X6: when the backend answers a neighborhood request with a status outside
    200-299, the error indicator is shown, with the body of the response or,
    for an empty body, the status message; the loading indicator is off and
    the graph, the selection and the source are the ones from before. *)
Theorem http_failure_is_shown s id (res : Api.Response Wire.Subgraph) :
  Api.ok res = false ->
  let s' := subgraphSettled (length (calls s)) (Resolved res) (loadGraph id s) in
  error_shown (view s') = true
  /\ error (view s')
     = or_else (Api.text res) ("Request failed: " +:+ pretty (Api.status res))
  /\ loading_shown (view s') = false
  /\ (selected (view s'), graph (view s'), source (view s'))
     = (selected (view s), graph (view s), source (view s)).
Proof.
  intros Hok s'. subst s'. unfold subgraphSettled.
  rewrite AppFacts.loadGraph_call. unfold Api.request. rewrite Hok. simpl.
  split; [| done]. unfold error_shown. simpl.
  apply truthy_true, ApiFacts.failure_message_nonempty.
Qed.

Lemma http_failure_is_shown_witness :
  let s' := subgraphSettled 0 (error_response 503 "") (loadGraph "A" init) in
  error_shown (view s') = true
  /\ error (view s') = "Request failed: 503"
  /\ loading_shown (view s') = false
  /\ (selected (view s'), graph (view s'), source (view s'))
     = (selected (view init), graph (view init), source (view init)).
Proof.
  exact (http_failure_is_shown init "A"
           {| Api.status := 503; Api.text := "";
              Api.json := Rejected "Unexpected token" |} eq_refl).
Defined.

(** X7: a load that succeeds end to end. The neighborhood arrives with a
    root that has a file, two requests have then been issued (the
    neighborhood with the depth and limit of the moment of the click, then
    the root's file), and when the source arrives the root is selected, the
    returned nodes and edges are the graph, loading is off, no error is shown
    and the source panel renders the file with the root's line as
    [highlightLine]: if that line is in the file, its row is highlighted. *)
Theorem successful_load_shows_source s id fetched fsrc data r f sd :
  Api.request fetched = Resolved data ->
  Wire.root data = Some r ->
  Wire.file r = Some f ->
  f <> "" ->
  Api.request fsrc = Resolved sd ->
  let k := length (calls s) in
  let s' := run (loadGraph id s) [SubgraphSettled k fetched; SourceSettled k fsrc] in
  selected (view s') = Some r
  /\ graph (view s') = {| nodes := Wire.nodes data; links := Wire.edges data |}
  /\ source (view s') = Some sd
  /\ loading (view s') = false
  /\ error (view s') = ""
  /\ requests s'
     = requests s
       ++ [(now s, Api.fetchSubgraph id (depth (view s)) (limit (view s)));
           (now s, Api.fetchSource f)]
  /\ source_panel (view s') = SourceView.SourceView (Wire.content sd) (Wire.line r)
  /\ (forall c n, Wire.content sd = Some c -> c <> "" -> Wire.line r = Some n ->
        (1 <= n <= Z.of_nat (length (SourceView.split c)))%Z ->
        exists rows row,
          source_panel (view s') = SourceView.Code rows
          /\ rows !! Z.to_nat (n - 1) = Some row
          /\ SourceView.lineNumber row = n
          /\ SourceView.isHighlight row = true).
Proof.
  intros Hreq Hr Hf Hne Hsrc k s'.
  pose proof (root_file_Some data r f Hr Hf Hne) as Hrf.
  destruct (subgraphSettled_chains s id fetched data f Hreq Hrf)
    as (Hk & Hview & Hrequests).
  fold k in Hk, Hview, Hrequests.
  assert (s' = sourceSettled k fsrc (subgraphSettled k fetched (loadGraph id s)))
    as -> by done.
  unfold sourceSettled. rewrite Hk, Hsrc.
  simpl. rewrite Hview, Hrequests. simpl.
  match goal with |- context [source_panel ?v] =>
    assert (source_panel v = SourceView.SourceView (Wire.content sd) (Wire.line r))
      as Hpanel by (unfold source_panel; simpl; by rewrite Hr)
  end.
  do 6 (split; [done |]). split; [exact Hpanel |].
  intros c n Hc Hcne Hn Hrange.
  rewrite Hpanel, Hc, Hn, SourceViewFacts.SourceView_rows by done.
  destruct (lookup_lt_is_Some_2 (SourceView.split c) (Z.to_nat (n - 1)))
    as [l Hl]; [lia |].
  eexists _, (SourceView.render_line (Some n) (Z.to_nat (n - 1)) l).
  split; [done |]. rewrite list_lookup_imap, Hl. simpl.
  split; [done |]. split; [lia |].
  apply bool_decide_eq_true. f_equal. lia.
Qed.

Lemma successful_load_shows_source_witness :
  let s' := run (loadGraph "A" init)
              [ SubgraphSettled 0 (ok_response subA);
                SourceSettled 0 (ok_response sourceA) ] in
  selected (view s') = Some nodeA
  /\ source (view s') = Some sourceA
  /\ loading (view s') = false
  /\ requests s' = [ (0%Z, Api.function_subgraph "A" 2 60);
                     (0%Z, Api.source_of "a.go") ].
Proof.
  destruct (successful_load_shows_source init "A" (ok_response subA)
              (ok_response sourceA) subA nodeA "a.go" sourceA)
    as (Hsel & _ & Hsrc & Hload & _ & Hreq & _);
    [reflexivity | reflexivity | reflexivity | discriminate | reflexivity |].
  split; [exact Hsel |]. split; [exact Hsrc |]. split; [exact Hload | exact Hreq].
Defined.

(** X8: when the neighborhood arrives with no root, or a root whose file is
    absent or the empty string, no source is requested: [source] is reset,
    the source panel shows the placeholder, the call is finished and loading
    is off. *)
Theorem load_without_file_clears_source s id fetched data :
  Api.request fetched = Resolved data ->
  (Wire.root data = None
   \/ exists r, Wire.root data = Some r
                /\ (Wire.file r = None \/ Wire.file r = Some "")) ->
  let k := length (calls s) in
  let s' := subgraphSettled k fetched (loadGraph id s) in
  source (view s') = None
  /\ source_panel (view s') = SourceView.Empty
  /\ selected (view s') = Wire.root data
  /\ loading (view s') = false
  /\ calls s' !! k = Some Finished
  /\ requests s'
     = requests s
       ++ [(now s, Api.fetchSubgraph id (depth (view s)) (limit (view s)))].
Proof.
  intros Hreq Hroot k s'. subst s' k. apply root_file_None in Hroot.
  unfold subgraphSettled. rewrite AppFacts.loadGraph_call, Hreq, Hroot. simpl.
  repeat (split; [done |]). split; [| done].
  apply list_lookup_insert_eq. rewrite length_app. simpl. lia.
Qed.

Lemma load_without_file_clears_source_witness :
  let data := {| Wire.root := Some {| Wire.id := "C"; Wire.name := "C";
                                      Wire.package := None; Wire.file := Some "";
                                      Wire.line := Some 3%Z |};
                 Wire.nodes := []; Wire.edges := [] |} in
  let s0 := run init [ SelectResult nodeA; SubgraphSettled 0 (ok_response subA);
                       SourceSettled 0 (ok_response sourceA) ] in
  let s' := subgraphSettled 1 (ok_response data) (loadGraph "C" s0) in
  source (view s0) = Some sourceA
  /\ source (view s') = None
  /\ source_panel (view s') = SourceView.Empty.
Proof.
  split; [reflexivity |].
  destruct (load_without_file_clears_source
              (run init [ SelectResult nodeA; SubgraphSettled 0 (ok_response subA);
                          SourceSettled 0 (ok_response sourceA) ])
              "C"
              (ok_response
                 {| Wire.root := Some {| Wire.id := "C"; Wire.name := "C";
                                         Wire.package := None; Wire.file := Some "";
                                         Wire.line := Some 3%Z |};
                    Wire.nodes := []; Wire.edges := [] |})
              _ eq_refl) as (Hsrc & Hpanel & _).
  - right. eexists. split; [reflexivity |]. by right.
  - split; [exact Hsrc | exact Hpanel].
Defined.

(** X9: changing depth or limit issues no request and starts no call; the
    graph, the selection and the source stay, and the next [loadGraph] asks
    for the neighborhood with the new depth and limit. *)
Theorem depth_limit_apply_to_next_load s d l item :
  let s1 := run s [DepthInput d; LimitInput l] in
  requests s1 = requests s
  /\ calls s1 = calls s
  /\ (selected (view s1), graph (view s1), source (view s1), loading (view s1))
     = (selected (view s), graph (view s), source (view s), loading (view s))
  /\ requests (step s1 (SelectResult item))
     = requests s ++ [(now s, Api.fetchSubgraph (Wire.id item) d l)].
Proof. done. Qed.

End LoadFacts.

(** ** App.jsx: the two flows side by side *)

Module FlowFacts.

Import App Flows JsFacts Samples.

Lemma onQueryChange_frame value s :
  selection_cells (view (onQueryChange value s)) = selection_cells (view s)
  /\ calls (onQueryChange value s) = calls s
  /\ requests (onQueryChange value s) = requests s
  /\ now (onQueryChange value s) = now s.
Proof.
  unfold onQueryChange. case_bool_decide; [done |].
  simpl. by destruct (length (effects s)).
Qed.

Lemma fire_all_calls ts s :
  calls (foldl (fun acc x => fire x acc) s ts) = calls s.
Proof. apply AppFacts.fire_all_flags. Qed.

Lemma searchSettled_frame e fetched s :
  selection_cells (view (searchSettled e fetched s)) = selection_cells (view s)
  /\ calls (searchSettled e fetched s) = calls s
  /\ timers (searchSettled e fetched s) = timers s
  /\ now (searchSettled e fetched s) = now s
  /\ requests (searchSettled e fetched s) = requests s.
Proof.
  unfold searchSettled. destruct (effects s !! e) as [eff|]; [| done].
  destruct (phase eff); try done.
  by destruct (Api.request fetched), (active eff).
Qed.

Lemma subgraphSettled_frame k fetched s :
  search_cells (view (subgraphSettled k fetched s)) = search_cells (view s)
  /\ effects (subgraphSettled k fetched s) = effects s
  /\ timers (subgraphSettled k fetched s) = timers s
  /\ now (subgraphSettled k fetched s) = now s.
Proof.
  unfold subgraphSettled. destruct (calls s !! k) as [[| |]|]; try done.
  destruct (Api.request fetched) as [data|m]; [| done].
  by destruct (root_file data).
Qed.

Lemma sourceSettled_frame k fetched s :
  search_cells (view (sourceSettled k fetched s)) = search_cells (view s)
  /\ effects (sourceSettled k fetched s) = effects s
  /\ timers (sourceSettled k fetched s) = timers s
  /\ now (sourceSettled k fetched s) = now s
  /\ requests (sourceSettled k fetched s) = requests s.
Proof.
  unfold sourceSettled. destruct (calls s !! k) as [[| |]|]; try done.
  by destruct (Api.request fetched).
Qed.

Lemma onNodeClick_frame node s :
  search_cells (view (onNodeClick node s)) = search_cells (view s)
  /\ effects (onNodeClick node s) = effects s
  /\ timers (onNodeClick node s) = timers s
  /\ now (onNodeClick node s) = now s.
Proof.
  unfold onNodeClick. destruct node as [n|]; [| done].
  by destruct (truthy (Wire.id n)).
Qed.

(** X10: the two flows keep to their own cells. Typing, the passing of time
    and search responses never change the selection, the graph, the source,
    loading, depth or limit, and start no call; selecting, clicking, the
    depth and limit inputs and the responses of [loadGraph] never change the
    query or the results, nor any run of the search effect or its timer. *)
Theorem flows_keep_to_their_cells s ev :
  (is_search_event ev = true ->
     selection_cells (view (step s ev)) = selection_cells (view s)
     /\ calls (step s ev) = calls s)
  /\ (is_search_event ev = false ->
     search_cells (view (step s ev)) = search_cells (view s)
     /\ effects (step s ev) = effects s
     /\ timers (step s ev) = timers s).
Proof.
  destruct ev; cbn [step is_search_event]; (split; intros Hev);
    try discriminate Hev; try done.
  - split; apply onQueryChange_frame.
  - repeat split; apply onNodeClick_frame.
  - split; [by rewrite AppFacts.tick_view |].
    unfold tick. case_bool_decide; [done |]. by rewrite fire_all_calls.
  - split; apply searchSettled_frame.
  - repeat split; apply subgraphSettled_frame.
  - repeat split; apply sourceSettled_frame.
Qed.

(** X11: when the backend answers the current search (the latest run, with
    its request in flight) with a status outside 200-299, the results that
    were listed stay listed and the error indicator is shown with the body of
    the response or, for an empty body, the status message. *)
Theorem failed_search_keeps_results s e eff (res : Api.Response Wire.SearchData) :
  effects s !! e = Some eff ->
  active eff = true ->
  phase eff = InFlight ->
  Api.ok res = false ->
  let s' := searchSettled e (Resolved res) s in
  results (view s') = results (view s)
  /\ query (view s') = query (view s)
  /\ error_shown (view s') = true
  /\ error (view s')
     = or_else (Api.text res) ("Request failed: " +:+ pretty (Api.status res)).
Proof.
  intros He Ha Hp Hok s'. subst s'. unfold searchSettled.
  rewrite He, Hp, Ha. unfold Api.request. rewrite Hok. simpl.
  do 2 (split; [done |]). split; [| done].
  unfold error_shown. simpl.
  apply truthy_true, ApiFacts.failure_message_nonempty.
Qed.

Lemma failed_search_keeps_results_witness :
  let s := run init [ Tick 250; SearchSettled 0 (ok_response (found [nodeA; nodeB]));
                      Input "Gat"; Tick 500 ] in
  let s' := searchSettled 1 (error_response 500 "database is locked") s in
  results (view s) = [nodeA; nodeB]
  /\ results (view s') = [nodeA; nodeB]
  /\ error_shown (view s') = true
  /\ error (view s') = "database is locked".
Proof.
  split; [reflexivity |].
  destruct (failed_search_keeps_results
              (run init [ Tick 250; SearchSettled 0 (ok_response (found [nodeA; nodeB]));
                          Input "Gat"; Tick 500 ])
              1 {| effect_query := "Gat"; active := true; phase := InFlight |}
              {| Api.status := 500; Api.text := "database is locked";
                 Api.json := Rejected "Unexpected token" |})
    as (Hres & _ & Hshown & Herr); [reflexivity | reflexivity | reflexivity | reflexivity |].
  split; [exact Hres |]. split; [exact Hshown | exact Herr].
Defined.

End FlowFacts.

(** ** App.jsx: invariants of the debounced search *)

Module DebounceFacts.

Import App Flows JsFacts Samples.

Lemma timer_window_init : timer_window init.
Proof.
  split; [simpl; lia |].
  intros t Ht. apply list_elem_of_singleton in Ht as ->.
  simpl. unfold debounce. lia.
Qed.

Lemma timer_window_same s s' :
  timer_window s -> timers s' = timers s -> now s' = now s -> timer_window s'.
Proof. intros [Hlen Hdue] Ht Hn. unfold timer_window. by rewrite Ht, Hn. Qed.

Lemma timer_window_tick t s : timer_window s -> timer_window (tick t s).
Proof.
  intros [Hlen Hdue]. unfold tick. case_bool_decide as Ht; [done |].
  match goal with |- timer_window (foldl _ ?s0 ?ts) =>
    destruct (AppFacts.fire_all_flags ts s0) as (_ & _ & H3 & _ & H5 & _) end.
  unfold timer_window. rewrite H3, H5. simpl. split.
  - etrans; [apply length_filter | done].
  - intros x [Hx Hin]%list_elem_of_filter. specialize (Hdue x Hin). lia.
Qed.

Lemma timer_window_step s ev :
  search_inv s -> timer_window s -> timer_window (step s ev).
Proof.
  intros Hinv Hwin. destruct ev; cbn [step]; try done.
  - destruct (decide (value = query (view s))) as [Heq | Hne].
    + unfold onQueryChange. by rewrite bool_decide_eq_true_2.
    + destruct (AppFacts.onQueryChange_armed value s Hinv Hne)
        as ((effs & _ & _ & _ & Htim) & _ & Hn & _).
      unfold timer_window. rewrite Htim, Hn. split; [simpl; lia |].
      intros t Ht. apply list_elem_of_singleton in Ht as ->.
      simpl. unfold debounce. lia.
  - eapply timer_window_same; [done | |]; apply FlowFacts.onNodeClick_frame.
  - by apply timer_window_tick.
  - eapply timer_window_same; [done | |]; apply FlowFacts.searchSettled_frame.
  - eapply timer_window_same; [done | |]; apply FlowFacts.subgraphSettled_frame.
  - eapply timer_window_same; [done | |]; apply FlowFacts.sourceSettled_frame.
Qed.

Lemma timer_window_reachable s : reachable s -> timer_window s.
Proof.
  induction 1 as [|s ev Hs IH]; [apply timer_window_init |].
  apply timer_window_step; [by apply AppFacts.search_inv_reachable | done].
Qed.

(** X12: at every moment of every run of the component, at most one search
    timer is pending, it is due after now and at most 250 ahead, and at most
    one run of the search effect is active. *)
Theorem one_pending_search s :
  reachable s ->
  length (timers s) <= 1
  /\ (forall t, t ∈ timers s -> (now s < due t <= now s + 250)%Z)
  /\ (forall e e' eff eff',
        effects s !! e = Some eff -> effects s !! e' = Some eff' ->
        active eff = true -> active eff' = true -> e = e').
Proof.
  intros Hs. destruct (timer_window_reachable s Hs) as [Hlen Hdue].
  destruct (AppFacts.search_inv_reachable s Hs) as [Hact _].
  split; [done |]. split; [exact Hdue |].
  intros e e' eff eff' He He' Ha Ha'.
  pose proof (Hact e eff He Ha). pose proof (Hact e' eff' He' Ha'). lia.
Qed.

Lemma one_pending_search_witness :
  let s := run init [ Tick 100; Input "G"; Tick 180; Input "Ga"; Tick 200;
                      SelectResult nodeA; Input "Gat" ] in
  timers s = [{| owner := 3; due := 450 |}]
  /\ length (timers s) <= 1.
Proof.
  split; [reflexivity |].
  apply (one_pending_search
           (run init [ Tick 100; Input "G"; Tick 180; Input "Ga"; Tick 200;
                       SelectResult nodeA; Input "Gat" ])).
  apply AppFacts.reachable_run, reachable_init.
Defined.

Lemma effect_search_searchFunctions q : effect_search (Api.searchFunctions q).
Proof.
  unfold Api.searchFunctions. simpl. split; [done |].
  destruct (truthy q) eqn:Hq; [| done].
  intros [= ->]. discriminate.
Qed.

Lemma log_ok_fire t s : log_ok (requests s) -> log_ok (requests (fire t s)).
Proof.
  intros H. unfold fire. destruct (effects s !! owner t); [| done].
  simpl. apply Forall_app. split; [done |].
  constructor; [apply effect_search_searchFunctions | constructor].
Qed.

Lemma log_ok_fire_all ts : forall s,
  log_ok (requests s) -> log_ok (requests (foldl (fun acc x => fire x acc) s ts)).
Proof.
  induction ts as [|t ts IH]; intros s H; [done |].
  simpl. by apply IH, log_ok_fire.
Qed.

Lemma log_ok_snoc log t p :
  log_ok log -> effect_search p -> log_ok (log ++ [(t, p)]).
Proof.
  intros H Hp. apply Forall_app. split; [done |]. by repeat constructor.
Qed.

Lemma log_ok_step s ev : log_ok (requests s) -> log_ok (requests (step s ev)).
Proof.
  intros H. destruct ev; cbn [step]; try done.
  - by rewrite (proj1 (proj2 (proj2 (FlowFacts.onQueryChange_frame value s)))).
  - by apply log_ok_snoc.
  - unfold onNodeClick. destruct node as [n|]; [| done].
    destruct (truthy (Wire.id n)); [| done]. by apply log_ok_snoc.
  - unfold tick. case_bool_decide; [done |]. by apply log_ok_fire_all.
  - by rewrite (proj2 (proj2 (proj2 (proj2 (FlowFacts.searchSettled_frame e fetched s))))).
  - unfold subgraphSettled. destruct (calls s !! k) as [[| |]|]; try done.
    destruct (Api.request fetched) as [data|m]; [| done].
    destruct (root_file data); [| done]. by apply log_ok_snoc.
  - by rewrite (proj2 (proj2 (proj2 (proj2 (FlowFacts.sourceSettled_frame k fetched s))))).
Qed.

(** X13: every search request the component ever issues asks for 40 results,
    whatever the limit input holds, and carries a [q] parameter only for a
    non-empty text. *)
Theorem search_requests_use_fixed_limit s :
  reachable s ->
  forall t q l, (t, Api.functions q l) ∈ requests s -> l = 40%Z /\ q <> Some "".
Proof.
  intros Hs t q l Hin.
  assert (log_ok (requests s)) as Hlog.
  { clear Hin. induction Hs; [by constructor | by apply log_ok_step]. }
  unfold log_ok in Hlog. rewrite Forall_forall in Hlog.
  exact (Hlog _ Hin).
Qed.

Lemma search_requests_use_fixed_limit_witness :
  let s := run init [ LimitInput 200; Tick 250; Input "Gather"; Tick 600 ] in
  requests s = [ (250%Z, Api.functions None 40); (500%Z, Api.functions (Some "Gather") 40) ]
  /\ (40 = 40)%Z /\ Some "Gather" <> Some "".
Proof.
  split; [reflexivity |].
  apply (search_requests_use_fixed_limit
           (run init [ LimitInput 200; Tick 250; Input "Gather"; Tick 600 ])
           (AppFacts.reachable_run _ _ reachable_init) 500 (Some "Gather") 40).
  right. left.
Defined.

(** X14: two inputs at least 250 apart are not coalesced: each gets its own
    search, issued 250 after it, the first one before the second input. *)
Theorem spaced_inputs_each_search s t1 q1 t2 q2 T :
  reachable s ->
  (now s <= t1)%Z ->
  q1 <> query (view s) ->
  (t1 + 250 <= t2)%Z ->
  q2 <> q1 ->
  (t2 + 250 <= T)%Z ->
  requests (type_burst s [(t1, q1); (t2, q2)])
  = requests (tick t1 s) ++ [((t1 + 250)%Z, Api.searchFunctions q1)]
  /\ requests (tick T (type_burst s [(t1, q1); (t2, q2)]))
     = requests (tick t1 s)
       ++ [((t1 + 250)%Z, Api.searchFunctions q1);
           ((t2 + 250)%Z, Api.searchFunctions q2)].
Proof.
  intros Hs Hnow Hq1 Ht2 Hq2 HT.
  pose proof (AppFacts.search_inv_reachable s Hs) as Hinv.
  destruct (AppFacts.type_at_first s t1 q1 Hinv Hnow Hq1)
    as [(effs & Heff & Hin & Htim & Hquery & Hn) Hreq1].
  set (s1 := type_at s (t1, q1)) in *.
  destruct (AppFacts.tick_fires s1 t2 effs _ _ Heff Htim)
    as (Te & Tt & Tr & Tv & Tn); [lia | unfold debounce; lia |].
  assert (reachable (tick t2 s1)) as Hreach2.
  { change (reachable (step (step (step s (Tick t1)) (Input q1)) (Tick t2))).
    do 3 apply reachable_step. exact Hs. }
  destruct (AppFacts.onQueryChange_armed q2 (tick t2 s1)) as
    ((effs2 & Heff2 & _ & _ & Htim2) & _ & Hn2 & Hreq2 & _).
  { by apply AppFacts.search_inv_reachable. }
  { by rewrite Tv, Hquery. }
  assert (type_burst s [(t1, q1); (t2, q2)] = onQueryChange q2 (tick t2 s1))
    as -> by done.
  destruct (AppFacts.tick_fires (onQueryChange q2 (tick t2 s1)) T effs2 _ _ Heff2 Htim2)
    as (_ & _ & Tr2 & _); [rewrite Hn2, Tn; lia | rewrite Tn; unfold debounce; lia |].
  rewrite Tr2, Hreq2, Tr, Hreq1, Tn. unfold debounce. simpl.
  split; [done |]. by rewrite <- app_assoc.
Qed.

Lemma spaced_inputs_each_search_witness :
  requests (tick 700 (type_burst init [(10%Z, "f"); (300%Z, "fo")]))
  = [ (260%Z, Api.functions (Some "f") 40); (550%Z, Api.functions (Some "fo") 40) ].
Proof.
  destruct (spaced_inputs_each_search init 10 "f" 300 "fo" 700) as [_ H].
  - apply reachable_init.
  - vm_compute. discriminate.
  - discriminate.
  - lia.
  - discriminate.
  - lia.
  - exact H.
Defined.

End DebounceFacts.

(** ** App.jsx: the graph handed to the renderer *)

Module GraphFacts.

Import App Flows JsFacts Samples.

Lemma graphNodes_nodes v : map node_of (graphNodes v) = nodes (graph v).
Proof.
  unfold graphNodes. induction (nodes (graph v)) as [|n ns IH]; [done |].
  simpl. by rewrite IH.
Qed.

(** The marked nodes of a list of nodes, for a given selected id. *)
Lemma marked_absent (o : option string) (ns : list Wire.Node) :
  (forall x, o = Some x -> x ∉ node_ids ns) ->
  filter (fun g => isSelected g = true)
    (map (fun node => {| node_of := node;
                         isSelected := opt_strict_eq o (Wire.id node) |}) ns)
  = [].
Proof.
  induction ns as [|n ns IH]; intros Hno; [done |].
  simpl. rewrite filter_cons_False.
  - apply IH. intros x Hx Hin. apply (Hno x Hx). by right.
  - simpl. destruct o as [x|]; simpl; [| done].
    intros Heq%strict_eq_true. apply (Hno x eq_refl). subst. by left.
Qed.

Lemma marked_unique (o : option string) (ns : list Wire.Node) :
  NoDup (node_ids ns) ->
  let marked :=
    filter (fun g => isSelected g = true)
      (map (fun node => {| node_of := node;
                           isSelected := opt_strict_eq o (Wire.id node) |}) ns) in
  length marked <= 1
  /\ (forall x, o = Some x -> x ∈ node_ids ns ->
        exists g, marked = [g] /\ Wire.id (node_of g) = x /\ node_of g ∈ ns).
Proof.
  induction ns as [|n ns IH]; intros Hnd; simpl.
  - split; [lia |]. intros x _ Hin. by apply elem_of_nil in Hin.
  - simpl in Hnd. apply NoDup_cons in Hnd as [Hn Hnd].
    destruct (IH Hnd) as [IHlen IHex].
    destruct (opt_strict_eq o (Wire.id n)) eqn:Heq.
    + destruct o as [x|]; [| done]. simpl in Heq.
      apply strict_eq_true in Heq as ->.
      rewrite filter_cons_True by done.
      rewrite marked_absent by (by intros ? [= <-]).
      split; [simpl; lia |].
      intros x [= <-] _. eexists. split; [done |]. split; [done | by left].
    + rewrite filter_cons_False by (simpl; congruence).
      split; [done |].
      intros x -> [Hx | Hx]%elem_of_cons.
      * simpl in Heq. subst x. by rewrite (proj2 (strict_eq_true _ _) eq_refl) in Heq.
      * destruct (IHex x eq_refl Hx) as (g & Hg & Hid & Hin).
        exists g. split; [done |]. split; [done | by right].
Qed.

(** X15: the nodes handed to the graph are the nodes of the loaded
    neighborhood, in their order; when their ids are distinct at most one of
    them is marked as selected, and when the selected node's id is among them
    exactly one is, the node with that id. *)
Theorem graphNodes_mark_selected v :
  NoDup (node_ids (nodes (graph v))) ->
  map node_of (graphNodes v) = nodes (graph v)
  /\ length (selected_nodes v) <= 1
  /\ (forall sel, selected v = Some sel ->
        Wire.id sel ∈ node_ids (nodes (graph v)) ->
        exists g, selected_nodes v = [g]
                  /\ Wire.id (node_of g) = Wire.id sel
                  /\ node_of g ∈ nodes (graph v)).
Proof.
  intros Hnd. split; [apply graphNodes_nodes |].
  destruct (marked_unique (selected_id v) (nodes (graph v)) Hnd) as [Hlen Hex].
  split; [exact Hlen |].
  intros sel Hsel Hin. apply (Hex (Wire.id sel)); [| done].
  unfold selected_id. by rewrite Hsel.
Qed.

Lemma graphNodes_mark_selected_witness :
  map node_of (graphNodes showing_A) = [nodeA; nodeX; nodeB]
  /\ selected_nodes showing_A = [{| node_of := nodeA; isSelected := true |}]
  /\ length (selected_nodes showing_A) <= 1.
Proof.
  split; [reflexivity |]. split; [reflexivity |].
  apply (graphNodes_mark_selected showing_A).
  apply (bool_decide_unpack _). vm_compute. exact I.
Defined.





End GraphFacts.

(** ** SourceView: how many rows *)

Module SourceRowFacts.

Import SourceView Flows JsFacts.

Lemma split_length content : length (split content) = S (count_newlines content).
Proof.
  induction content as [|c rest IH]; [done |].
  cbn [split count_newlines].
  destruct (SourceViewFacts.split_cons rest) as (l & ls & Hs).
  rewrite Hs in IH |- *.
  destruct (Ascii.eqb c newline); simpl in *; lia.
Qed.

Lemma split_snoc_newline content :
  split (content +:+ String newline "") = split content ++ [""].
Proof.
  induction content as [|c rest IH]; [done |].
  change (String c rest +:+ String newline "")
    with (String c (rest +:+ String newline "")).
  cbn [split]. rewrite IH.
  destruct (SourceViewFacts.split_cons rest) as (l & ls & ->).
  by destruct (Ascii.eqb c newline).
Qed.

(** X17: for a non-empty content the source panel has one row more than the
    content has newline characters, and the rows carry the numbers 1, 2, ...
    in order. *)
Theorem SourceView_row_count (content : string) (highlightLine : option Z) :
  content <> "" ->
  exists rows,
    SourceView (Some content) highlightLine = Code rows
    /\ length rows = S (count_newlines content)
    /\ map lineNumber rows
       = map (fun i => (Z.of_nat i + 1)%Z) (seq 0 (S (count_newlines content))).
Proof.
  intros Hne. eexists. split; [by apply SourceViewFacts.SourceView_rows |].
  rewrite <- split_length. split; [apply length_imap |].
  apply list_eq. intros i. rewrite !list_lookup_fmap, list_lookup_imap.
  destruct (split content !! i) as [l|] eqn:Hl; simpl.
  - rewrite lookup_seq_lt by (by eapply lookup_lt_Some). done.
  - rewrite lookup_seq_ge by (by apply lookup_ge_None). done.
Qed.

Lemma SourceView_row_count_witness :
  exists rows,
    SourceView (Some ("a" +:+ String newline (String newline "b"))) None = Code rows
    /\ length rows = 3
    /\ map lineNumber rows = [1; 2; 3]%Z.
Proof.
  exact (SourceView_row_count ("a" +:+ String newline (String newline "b")) None
           ltac:(discriminate)).
Defined.

(** X18: a content that ends with a newline is rendered with one more row
    after the rows of the text before that newline: a row with the next
    number and a blank as its text. *)
Theorem SourceView_trailing_newline (content : string) (highlightLine : option Z) :
  SourceView (Some (content +:+ String newline "")) highlightLine
  = Code (imap (render_line highlightLine) (split content)
          ++ [ {| lineNumber := Z.of_nat (length (split content)) + 1;
                  isHighlight :=
                    bool_decide
                      (highlightLine
                       = Some (Z.of_nat (length (split content)) + 1)%Z);
                  code_text := " " |} ]).
Proof.
  assert (content +:+ String newline "" <> "") as Hne by (by destruct content).
  rewrite SourceViewFacts.SourceView_rows by done.
  rewrite split_snoc_newline, imap_app. simpl.
  by rewrite Nat.add_0_r.
Qed.

End SourceRowFacts.

(** ** App.jsx: the loading indicator with two calls in flight *)

Module LoadingFacts.

Import App Flows JsFacts Samples.

Lemma sourceSettled_other_call k k' fetched s :
  k <> k' -> calls (sourceSettled k fetched s) !! k' = calls s !! k'.
Proof.
  intros Hne. unfold sourceSettled.
  destruct (calls s !! k) as [[| |]|] eqn:Hk; try done.
  destruct (Api.request fetched); simpl; by rewrite list_lookup_insert_ne.
Qed.

(** X19: the loading indicator follows the call that finished last, not the
    calls in flight. When one [loadGraph] call ends, by its source response
    (good or bad) or by a failed neighborhood response, loading is switched
    off although another call still waits for its neighborhood. *)
Theorem loading_off_with_call_in_flight s k k' :
  k <> k' ->
  calls s !! k' = Some AwaitSubgraph ->
  (forall fsrc, calls s !! k = Some AwaitSource ->
     loading_shown (view (sourceSettled k fsrc s)) = false
     /\ calls (sourceSettled k fsrc s) !! k' = Some AwaitSubgraph)
  /\ (forall fetched m, calls s !! k = Some AwaitSubgraph ->
        Api.request fetched = Rejected m ->
        loading_shown (view (subgraphSettled k fetched s)) = false
        /\ calls (subgraphSettled k fetched s) !! k' = Some AwaitSubgraph).
Proof.
  intros Hne Hk'. split.
  - intros fsrc Hk. split.
    + unfold sourceSettled. rewrite Hk. by destruct (Api.request fsrc).
    + by rewrite sourceSettled_other_call.
  - intros fetched m Hk Hreq. split.
    + unfold subgraphSettled. by rewrite Hk, Hreq.
    + by rewrite AppFacts.subgraphSettled_other_call.
Qed.

Lemma loading_off_with_call_in_flight_witness :
  let s := run init [ SelectResult nodeA; SelectResult nodeB;
                      SubgraphSettled 0 (ok_response subA) ] in
  let s' := sourceSettled 0 (ok_response sourceA) s in
  loading_shown (view s) = true
  /\ loading_shown (view s') = false
  /\ calls s' !! 1 = Some AwaitSubgraph.
Proof.
  split; [reflexivity |].
  destruct (loading_off_with_call_in_flight
              (run init [ SelectResult nodeA; SelectResult nodeB;
                          SubgraphSettled 0 (ok_response subA) ]) 0 1)
    as [Hsrc _]; [lia | reflexivity |].
  exact (Hsrc (ok_response sourceA) eq_refl).
Defined.

End LoadingFacts.

(** ** App.jsx: two overlapping calls of [loadGraph] *)

Module OverlapFacts.

Import App Samples.

(** Two clicks in a row, the neighborhood of B arriving before that of A:
    the selection ends on A; in the other order it ends on B. *)
Lemma loadGraph_last_arrival_wins_witness :
  let s2 := loadGraph "B" (loadGraph "A" init) in
  selected (view (run s2 [ SubgraphSettled 1 (ok_response subB);
                           SubgraphSettled 0 (ok_response subA) ]))
    = Some nodeA
  /\ selected (view (run s2 [ SubgraphSettled 0 (ok_response subA);
                              SubgraphSettled 1 (ok_response subB) ]))
    = Some nodeB.
Proof.
  exact (AppFacts.loadGraph_last_arrival_wins init "A" "B"
           (ok_response subA) (ok_response subB) subA subB eq_refl eq_refl).
Defined.

End OverlapFacts.
